(** * sysstats: memory statistics of a Linux host
    A shallow embedding of [getMemStats] (memstats_linux.go) together with
    the library routines it calls: [strconv.ParseUint], the pattern given
    to [regexp.MustCompile] with [FindStringSubmatch], and [bufio.Scanner]
    with [bufio.ScanLines].

    Go strings are byte sequences: they are modelled as [string], whose
    characters are the 8-bit [ascii].  [uint64] is modelled as [Z] with the
    wrap-around modulo 2^64 written out.  [MemStats] (map[string]uint64) is
    a [gmap string Z]; reading a missing key yields the zero value. *)

From Stdlib Require Import ZArith Lia Ascii String List Bool.
From stdpp Require Import base option gmap strings.

Local Open Scope Z_scope.

#[local] Arguments String.append !s1 s2 : simpl nomatch.

(** ** Byte strings *)

Module Bytes.

Fixpoint strip_prefix (w s : string) : option string :=
  match w with
  | EmptyString => Some s
  | String a w' =>
      match s with
      | EmptyString => None
      | String b s' => if Ascii.eqb a b then strip_prefix w' s' else None
      end
  end.

Fixpoint take_while (p : ascii -> bool) (s : string) : string :=
  match s with
  | EmptyString => EmptyString
  | String c s' => if p c then String c (take_while p s') else EmptyString
  end.

Fixpoint drop_while (p : ascii -> bool) (s : string) : string :=
  match s with
  | EmptyString => EmptyString
  | String c s' => if p c then drop_while p s' else s
  end.

Fixpoint all (p : ascii -> bool) (s : string) : bool :=
  match s with
  | EmptyString => true
  | String c s' => p c && all p s'
  end.

Fixpoint replicate (n : nat) (c : ascii) : string :=
  match n with
  | O => EmptyString
  | S n' => String c (replicate n' c)
  end.

Definition code (c : ascii) : Z := Z.of_N (N_of_ascii c).

Definition head_sat (p : ascii -> bool) (s : string) : bool :=
  match s with
  | EmptyString => false
  | String c _ => p c
  end.

End Bytes.

(** ** uint64 arithmetic *)

Module Uint64.

Definition modulus : Z := 2 ^ 64.
Definition maxUint64 : Z := modulus - 1.

Definition wrap (z : Z) : Z := z mod modulus.
Definition add (a b : Z) : Z := wrap (a + b).
Definition sub (a b : Z) : Z := wrap (a - b).
Definition mul (a b : Z) : Z := wrap (a * b).

Definition in_range (z : Z) : Prop := 0 <= z < modulus.

End Uint64.

(** ** strconv.ParseUint *)

Module Strconv.

Inductive errKind := ErrSyntax | ErrRange.

(** [*strconv.NumError]: the failing function, the input and the cause. *)
Record NumError := mkNumError { Func : string; Num : string; Err : errKind }.

Definition lower (c : Z) : Z := Z.lor c 32.

(** The digit switch of the loop: decimal digits, then letters. *)
Definition digitVal (c : ascii) : option Z :=
  let b := Bytes.code c in
  if (48 <=? b) && (b <=? 57) then Some (b - 48)
  else if (97 <=? lower b) && (lower b <=? 122) then Some (lower b - 97 + 10)
  else None.

Section Loop.
Variable base : Z.
Variable cutoff : Z.
Variable maxVal : Z.

(** The body of [for _, c := range []byte(s)], with [n] the accumulator.
    The result is the returned number and the error kind, if any. *)
Fixpoint parseLoop (s : string) (n : Z) : Z * option errKind :=
  match s with
  | EmptyString => (n, None)
  | String c s' =>
      match digitVal c with
      | None => (0, Some ErrSyntax)
      | Some d =>
          if base <=? d then (0, Some ErrSyntax)
          else if cutoff <=? n then (maxVal, Some ErrRange)
          else
            let n' := Uint64.mul n base in
            let n1 := Uint64.add n' d in
            if (n1 <? n') || (maxVal <? n1) then (maxVal, Some ErrRange)
            else parseLoop s' n1
      end
  end.
End Loop.

(** [ParseUint(s, 10, 64)]: the base and the bit size are the constants of
    the call site, so the underscore rule of base 0 does not apply. *)
Definition ParseUint10_64 (s : string) : Z * option NumError :=
  match s with
  | EmptyString => (0, Some (mkNumError "ParseUint" s ErrSyntax))
  | _ =>
      let cutoff := Uint64.maxUint64 / 10 + 1 in
      let maxVal := Uint64.sub (Uint64.wrap (Z.shiftl 1 64)) 1 in
      match parseLoop 10 cutoff maxVal s 0 with
      | (n, None) => (n, None)
      | (n, Some e) => (n, Some (mkNumError "ParseUint" s e))
      end
  end.

(** The number a digit string denotes. *)
Fixpoint decimal_acc (s : string) (n : Z) : Z :=
  match s with
  | EmptyString => n
  | String c s' => decimal_acc s' (10 * n + (Bytes.code c - 48))
  end.
Definition decimal (s : string) : Z := decimal_acc s 0.

End Strconv.

(** ** regexp: a backtracking matcher with leftmost-first priorities

    Go's regexp package returns, among the matches that start leftmost,
    the one a backtracking search finds first.  Every atom of the pattern
    used here is an ASCII byte or an ASCII class, and the match is anchored
    at the start of the text, so matching bytes agrees with matching
    runes. *)

Module Regexp.

Inductive regex :=
| Empty
| Bol                              (* ^ without the m flag *)
| Lit (c : ascii)
| Class (p : ascii -> bool)
| Cat (r1 r2 : regex)
| Alt (r1 r2 : regex)              (* r1|r2, r1 preferred *)
| Star (r : regex)                 (* r*, greedy *)
| Group (i : nat) (r : regex).     (* capturing group number i *)

(** r+ is rr* *)
Definition Plus (r : regex) : regex := Cat r (Star r).

Fixpoint lit (w : string) : regex :=
  match w with
  | EmptyString => Empty
  | String c w' => Cat (Lit c) (lit w')
  end.

(** Captures in the order they were closed, latest first. *)
Definition captures := list (nat * string).

(** A match: where it starts, where it ends, what the groups hold. *)
Record found := mkFound { m_start : nat; m_end : nat; m_caps : captures }.

Definition cont := nat -> string -> captures -> option found.

Definition orelse (a b : option found) : option found :=
  match a with
  | Some x => Some x
  | None => b
  end.

(** The iterations of a greedy star over [body]: one more iteration is
    preferred to stopping, and an iteration has to consume input, so the
    length of the remaining text bounds their number. *)
Fixpoint iterate (body : nat -> string -> captures -> cont -> option found)
         (k : cont) (fuel : nat) (pos : nat) (s : string) (caps : captures)
         {struct fuel} : option found :=
  match fuel with
  | O => k pos s caps
  | S fuel' =>
      orelse
        (body pos s caps
           (fun pos' s' caps' =>
              if Nat.ltb pos pos' then iterate body k fuel' pos' s' caps'
              else None))
        (k pos s caps)
  end.

(** [backtrack r pos s caps k]: match [r] at offset [pos], where [s] is the
    text from [pos] on, then continue with [k]; alternatives are tried in
    priority order. *)
Fixpoint backtrack (r : regex) (pos : nat) (s : string) (caps : captures)
         (k : cont) {struct r} : option found :=
  match r with
  | Empty => k pos s caps
  | Bol => if Nat.eqb pos 0 then k pos s caps else None
  | Lit c =>
      match s with
      | String c' s' => if Ascii.eqb c c' then k (S pos) s' caps else None
      | EmptyString => None
      end
  | Class p =>
      match s with
      | String c' s' => if p c' then k (S pos) s' caps else None
      | EmptyString => None
      end
  | Cat r1 r2 =>
      backtrack r1 pos s caps (fun pos' s' caps' => backtrack r2 pos' s' caps' k)
  | Alt r1 r2 =>
      orelse (backtrack r1 pos s caps k) (backtrack r2 pos s caps k)
  | Star r1 =>
      iterate (backtrack r1) k (String.length s) pos s caps
  | Group i r1 =>
      backtrack r1 pos s caps
        (fun pos' s' caps' =>
           k pos' s' ((i, String.substring 0 (pos' - pos) s) :: caps'))
  end.

(** The leftmost start offset at which the pattern matches. *)
Fixpoint find_from (r : regex) (pos : nat) (s : string) : option found :=
  match backtrack r pos s nil (fun pos' _ caps => Some (mkFound pos pos' caps)) with
  | Some m => Some m
  | None =>
      match s with
      | EmptyString => None
      | String _ s' => find_from r (S pos) s'
      end
  end.

Fixpoint capture (i : nat) (caps : captures) : string :=
  match caps with
  | nil => EmptyString
  | (j, w) :: caps' => if Nat.eqb i j then w else capture i caps'
  end.

(** [FindStringSubmatch]: nil when there is no match, else the matched
    text followed by the text of each of the [n] groups. *)
Definition FindStringSubmatch (r : regex) (n : nat) (s : string)
  : option (list string) :=
  match find_from r 0 s with
  | None => None
  | Some m =>
      Some (String.substring (m_start m) (m_end m - m_start m) s
              :: map (fun i => capture i (m_caps m)) (seq 1 n))
  end.

(** \s of RE2: tab, newline, form feed, carriage return, space. *)
Definition is_space (c : ascii) : bool :=
  let b := Bytes.code c in
  (b =? 9) || (b =? 10) || (b =? 12) || (b =? 13) || (b =? 32).

(** \d *)
Definition is_digit (c : ascii) : bool :=
  (48 <=? Bytes.code c) && (Bytes.code c <=? 57).

End Regexp.

(** ** The pattern of getMemStats *)

Import Regexp.

(** ^((?:Mem|Swap)(?:Total|Free)|Buffers|Cached|SwapCached|Active|Inactive|
      Dirty|Writeback|Mapped|Slab|Commit(?:Limit|ted_AS)):\s*(\d+) *)
Definition re_names : regex :=
  Alt (Cat (Alt (lit "Mem") (lit "Swap")) (Alt (lit "Total") (lit "Free")))
 (Alt (lit "Buffers")
 (Alt (lit "Cached")
 (Alt (lit "SwapCached")
 (Alt (lit "Active")
 (Alt (lit "Inactive")
 (Alt (lit "Dirty")
 (Alt (lit "Writeback")
 (Alt (lit "Mapped")
 (Alt (lit "Slab")
      (Cat (lit "Commit") (Alt (lit "Limit") (lit "ted_AS")))))))))))).

Definition re : regex :=
  Cat Bol
 (Cat (Group 1 re_names)
 (Cat (Lit ":")
 (Cat (Star (Class is_space))
      (Group 2 (Plus (Class is_digit)))))).

(** ** bufio.Scanner with bufio.ScanLines *)

Module Bufio.

Definition MaxScanTokenSize : nat := 64 * 1024.

Definition newline : ascii := ascii_of_nat 10.
Definition cr : ascii := ascii_of_nat 13.

Fixpoint IndexByte (s : string) (c : ascii) : option nat :=
  match s with
  | EmptyString => None
  | String b s' =>
      if Ascii.eqb b c then Some O
      else match IndexByte s' c with
           | Some i => Some (S i)
           | None => None
           end
  end.

Fixpoint take (n : nat) (s : string) : string :=
  match n, s with
  | S n', String c s' => String c (take n' s')
  | _, _ => EmptyString
  end.

Fixpoint drop (n : nat) (s : string) : string :=
  match n, s with
  | S n', String _ s' => drop n' s'
  | _, _ => s
  end.

(** dropCR: a single trailing carriage return is removed. *)
Fixpoint dropCR (data : string) : string :=
  match data with
  | EmptyString => EmptyString
  | String c EmptyString => if Ascii.eqb c cr then EmptyString else data
  | String c rest => String c (dropCR rest)
  end.

(** The split function: how far to advance and the token, if there is one. *)
Definition ScanLines (data : string) (atEOF : bool) : nat * option string :=
  if atEOF && Nat.eqb (String.length data) 0 then (O, None)
  else
    match IndexByte data newline with
    | Some i => (S i, Some (dropCR (take i data)))
    | None =>
        if atEOF then (String.length data, Some (dropCR data))
        else (O, None)
    end.

(** One call of [Scan] on the unread rest of the input.  The buffer holds
    at most [MaxScanTokenSize] bytes; the split function sees the end of
    the input only when all of the rest fits.  A full buffer without a
    token ends the scan (ErrTooLong), as does the end of the input. *)
Definition Scan (rest : string) : option (string * string) :=
  let buf := take MaxScanTokenSize rest in
  let atEOF := Nat.ltb (String.length rest) MaxScanTokenSize in
  match ScanLines buf atEOF with
  | (adv, Some tok) => Some (tok, drop adv rest)
  | (_, None) => None
  end.

(** The values of [scanner.Text()] over [for scanner.Scan()].  Every token
    advances by at least one byte, so the length of the input is fuel
    enough. *)
Fixpoint scan_all (fuel : nat) (rest : string) : list string :=
  match fuel with
  | O => nil
  | S fuel' =>
      match Scan rest with
      | Some (tok, rest') => tok :: scan_all fuel' rest'
      | None => nil
      end
  end.

Definition lines (content : string) : list string :=
  scan_all (S (String.length content)) content.

End Bufio.

(** ** getMemStats *)

(** The error of [os.Open]: operation, path and the cause. *)
Record PathError := mkPathError { Op : string; Path : string; Cause : string }.

(** What the host offers under a path: an error on opening, or the bytes
    the opened file delivers. *)
Definition filesystem := string -> PathError + string.

(** The mapping under construction and what was printed so far. *)
Record state := mkState {
  memStats : gmap string Z;
  printed : list Strconv.NumError
}.

(** memStats[k] as an expression: the zero value when [k] is missing. *)
Definition index (m : gmap string Z) (k : string) : Z :=
  match m !! k with
  | Some v => v
  | None => 0
  end.

(** The body of [for scanner.Scan()]. *)
Definition loop_body (st : state) (line : string) : state :=
  match FindStringSubmatch re 2 line with
  | None => st
  | Some stat =>
      let key := nth 1 stat EmptyString in
      match Strconv.ParseUint10_64 (nth 2 stat EmptyString) with
      | (_, Some err) => mkState (memStats st) (printed st ++ [err])
      | (value, None) => mkState (<[key := value]> (memStats st)) (printed st)
      end
  end.

Definition scan_loop (st : state) (ls : list string) : state :=
  fold_left loop_body ls st.

(** The three assignments after the loop, in order. *)
Definition derive (m : gmap string Z) : gmap string Z :=
  let m1 :=
    <["MemUsed" := Uint64.sub (index m "MemTotal") (index m "MemFree")]> m in
  let m2 :=
    <["SwapUsed" := Uint64.sub (index m1 "SwapTotal") (index m1 "SwapFree")]> m1 in
  <["RealFree" :=
      Uint64.add (Uint64.add (index m2 "MemFree") (index m2 "Buffers"))
                 (index m2 "Cached")]> m2.

(** What a call returns and prints: [nil] is [None]. *)
Record outcome := mkOutcome {
  ret_memStats : option (gmap string Z);
  ret_err : option PathError;
  stdout : list Strconv.NumError
}.

Definition init : state := mkState ∅ [].

Definition getMemStats (fs : filesystem) : outcome :=
  match fs "/proc/meminfo" with
  | inl err => mkOutcome None (Some err) []
  | inr content =>
      let st := scan_loop init (Bufio.lines content) in
      mkOutcome (Some (derive (memStats st))) None (printed st)
  end.

(** A host on which /proc/meminfo opens and delivers [content]. *)
Definition host (content : string) : filesystem :=
  fun path =>
    if String.eqb path "/proc/meminfo" then inr content
    else inl (mkPathError "open" path "no such file or directory").

Definition nl : string := String Bufio.newline EmptyString.

(** ** Reading the pattern and the claims *)

(** The alternatives of the first group, in the order the pattern lists
    them. *)
Definition field_names : list string :=
  ["MemTotal"; "MemFree"; "SwapTotal"; "SwapFree"; "Buffers"; "Cached";
   "SwapCached"; "Active"; "Inactive"; "Dirty"; "Writeback"; "Mapped";
   "Slab"; "CommitLimit"; "Committed_AS"].

Definition derived_names : list string := ["MemUsed"; "SwapUsed"; "RealFree"].

(** What has to follow a field name: the colon, the longest run of
    whitespace, the longest run of digits, which is not empty.  The result
    is the matched text and the digits. *)
Definition numeric_tail (s : string) : option (string * string) :=
  match s with
  | String c s1 =>
      if Ascii.eqb ":" c then
        let ws := Bytes.take_while is_space s1 in
        match Bytes.take_while is_digit (Bytes.drop_while is_space s1) with
        | EmptyString => None
        | d => Some (String ":" (ws +:+ d), d)
        end
      else None
  | EmptyString => None
  end.

(** The search of the pattern written as a loop over the field names; it is
    proved below to agree with [FindStringSubmatch re 2]. *)
Fixpoint first_field (names : list string) (line : string)
  : option (list string) :=
  match names with
  | [] => None
  | n :: ns =>
      match Bytes.strip_prefix n line with
      | Some s' =>
          match numeric_tail s' with
          | Some (t, d) => Some [n +:+ t; n; d]
          | None => first_field ns line
          end
      | None => first_field ns line
      end
  end.

Definition match_line (line : string) : option (list string) :=
  first_field field_names line.

(** The shape the specification gives for a recognised line: a field name,
    a colon, whitespace, digits, anything; [digits] is the whole run. *)
Definition recognized_shape (line name digits : string) : Prop :=
  In name field_names /\
  exists ws rest : string,
    line = name +:+ ":" +:+ ws +:+ digits +:+ rest /\
    Bytes.all is_space ws = true /\
    Bytes.all is_digit digits = true /\
    digits <> EmptyString /\
    Bytes.head_sat is_digit rest = false.

(** The entry a line stores, if it stores one: the loop body up to the
    assignment. *)
Definition entry_of (line : string) : option (string * Z) :=
  match FindStringSubmatch re 2 line with
  | None => None
  | Some stat =>
      match Strconv.ParseUint10_64 (nth 2 stat EmptyString) with
      | (_, Some _) => None
      | (value, None) => Some (nth 1 stat EmptyString, value)
      end
  end.



(** The text of a line before its first colon. *)
Definition field_of (line : string) : string :=
  match Bufio.IndexByte line ":" with
  | Some i => Bufio.take i line
  | None => line
  end.

(** The text of a line where its number is expected: after the first colon
    and the whitespace that follows, as far as digits go. *)
Definition numeric_portion (line : string) : string :=
  match Bufio.IndexByte line ":" with
  | Some i =>
      Bytes.take_while is_digit (Bytes.drop_while is_space (Bufio.drop (S i) line))
  | None => EmptyString
  end.


(** Every value of a mapping is a uint64. *)
Definition all_uint64 (m : gmap string Z) : Prop :=
  forall k v, m !! k = Some v -> Uint64.in_range v.

(** ** Auxiliary definitions for the proofs *)

(** The matcher on a literal word. *)
Definition try_word (w : string) (pos : nat) (s : string) (caps : captures)
           (k : cont) : option found :=
  match Bytes.strip_prefix w s with
  | Some s' => k (pos + String.length w)%nat s' caps
  | None => None
  end.

(** The alternatives tried one after the other. *)
Fixpoint try_words (ws : list string) (pos : nat) (s : string)
         (caps : captures) (k : cont) : option found :=
  match ws with
  | [] => None
  | w :: ws' => orelse (try_word w pos s caps k) (try_words ws' pos s caps k)
  end.

(** The continuation at the end of the pattern, for a search from the
    start of the line. *)
Definition accept : cont := fun pos' _ caps => Some (mkFound 0 pos' caps).

Definition found_of (stat : option (list string)) : option found :=
  match stat with
  | Some [w; n; d] => Some (mkFound 0 (String.length w) [(2%nat, d); (1%nat, n)])
  | _ => None
  end.

(** The error of ParseUint on a number that does not fit. *)
Definition rangeError (s : string) : Strconv.NumError :=
  Strconv.mkNumError "ParseUint" s Strconv.ErrRange.

(** The mapping after a list of lines: the loop on the mapping alone. *)
Definition collect (m : gmap string Z) (ls : list string) : gmap string Z :=
  fold_left
    (fun m line =>
       match entry_of line with
       | Some (k, v) => <[k := v]> m
       | None => m
       end) ls m.

(** ** Sample sources *)

(** A source with a memory, a swap and a buffer line. *)
Definition sample_source : string :=
  "MemTotal:       16316412 kB" +:+ nl +:+
  "MemFree:         2158924 kB" +:+ nl +:+
  "Buffers:          712344 kB" +:+ nl +:+
  "Cached:          6607552 kB" +:+ nl +:+
  "VmallocTotal: 999 kB" +:+ nl +:+
  "SwapTotal:       2097148 kB" +:+ nl +:+
  "SwapFree:        2097148 kB" +:+ nl.

Definition sample_result : gmap string Z :=
  derive (memStats (scan_loop init (Bufio.lines sample_source))).


Definition free_only_source : string := "MemFree: 200 kB" +:+ nl.

Definition free_only_collected : gmap string Z :=
  memStats (scan_loop init (Bufio.lines free_only_source)).

Definition mem_source : string :=
  "MemTotal: 1000 kB" +:+ nl +:+ "MemFree: 200 kB" +:+ nl.
Definition swap_source : string :=
  "SwapTotal: 500 kB" +:+ nl +:+ "SwapFree: 100 kB" +:+ nl.
Definition realfree_source : string :=
  "MemFree: 200 kB" +:+ nl +:+ "Buffers: 50 kB" +:+ nl +:+ "Cached: 30 kB" +:+ nl.

(** A source with a line as long as the buffer of the scanner. *)
Definition long_source : string :=
  "MemTotal: 1 kB" +:+ nl +:+
  Bytes.replicate Bufio.MaxScanTokenSize "x" +:+ nl +:+
  "MemTotal: 2 kB" +:+ nl.

(** What follows its first line. *)
Definition long_rest : string :=
  Bytes.replicate Bufio.MaxScanTokenSize "x" +:+ nl +:+
  "MemTotal: 2 kB" +:+ nl.

Definition overflowing_line : string := "MemTotal: 18446744073709551616".


Definition repeated_source : string :=
  "MemTotal: 1 kB" +:+ nl +:+ "MemFree: 5 kB" +:+ nl +:+
  "MemTotal: 2 kB" +:+ nl +:+ "MemFree: 7 kB" +:+ nl.


(** ** Entries, diagnostics and sources built from lines *)

(** The entries the lines store, in the order of the lines. *)
Definition entries (ls : list string) : list (string * Z) := omap entry_of ls.

(** The diagnostic a line prints, if it prints one: the loop body up to
    [fmt.Println]. *)
Definition diagnostic_of (line : string) : option Strconv.NumError :=
  match FindStringSubmatch re 2 line with
  | None => None
  | Some stat =>
      match Strconv.ParseUint10_64 (nth 2 stat EmptyString) with
      | (_, Some err) => Some err
      | (_, None) => None
      end
  end.

(** A source made of lines, each one followed by [eol]. *)
Fixpoint join_lines (eol : string) (ls : list string) : string :=
  match ls with
  | [] => EmptyString
  | l :: ls' => l +:+ eol +:+ join_lines eol ls'
  end.


(** A line without a newline in it that, with [extra] more bytes, stays
    below the buffer of the scanner. *)
Definition scannable (extra : nat) (l : string) : Prop :=
  Bufio.IndexByte l Bufio.newline = None /\
  (String.length l + extra < Bufio.MaxScanTokenSize)%nat.

(** A line that does not end in a carriage return. *)
Definition no_trailing_cr (l : string) : Prop := Bufio.dropCR l = l.

(** The lines of [mem_source] the other way round. *)
Definition swapped_mem_source : string :=
  "MemFree: 200 kB" +:+ nl +:+ "MemTotal: 1000 kB" +:+ nl.

(** A source with a number that does not fit. *)
Definition overflowing_source : string :=
  "MemFree: 200 kB" +:+ nl +:+ overflowing_line +:+ nl.

(** The mapping of a source without a single valid line. *)
Definition zero_stats : gmap string Z :=
  <["RealFree" := 0]> (<["SwapUsed" := 0]> (<["MemUsed" := 0]> ∅)).

Definition all_names : list string := field_names ++ derived_names.

(** * Facts *)

(** ** Byte strings *)

Section BytesFacts.
Import Bytes.

Lemma append_assoc (a b c : string) : (a +:+ b) +:+ c = a +:+ (b +:+ c).
Proof. induction a as [|x a IH]; simpl; [reflexivity | now rewrite IH]. Qed.

Lemma append_nil_r (a : string) : a +:+ EmptyString = a.
Proof. induction a as [|x a IH]; simpl; [reflexivity | now rewrite IH]. Qed.

Lemma length_append (a b : string) :
  String.length (a +:+ b) = (String.length a + String.length b)%nat.
Proof. induction a as [|x a IH]; simpl; [reflexivity | now rewrite IH]. Qed.

Lemma strip_prefix_Some (w s s' : string) :
  strip_prefix w s = Some s' <-> s = w +:+ s'.
Proof.
  revert s. induction w as [|a w IH]; intros s; simpl.
  - split; [intros [= ->]; reflexivity | intros ->; reflexivity].
  - destruct s as [|b s]; [split; discriminate |].
    destruct (Ascii.eqb_spec a b) as [->|Hne].
    + rewrite IH. split; [intros ->; reflexivity | intros [= ->]; reflexivity].
    + split; [discriminate | intros [= E _]; congruence].
Qed.

Lemma strip_prefix_append (w s : string) : strip_prefix w (w +:+ s) = Some s.
Proof. now apply strip_prefix_Some. Qed.

Lemma substring_prefix (a b : string) :
  String.substring 0 (String.length a) (a +:+ b) = a.
Proof.
  induction a as [|x a IH]; simpl.
  - destruct b; reflexivity.
  - now rewrite IH.
Qed.

Lemma take_drop_while (p : ascii -> bool) (s : string) :
  take_while p s +:+ drop_while p s = s.
Proof.
  induction s as [|c s IH]; simpl; [reflexivity |].
  destruct (p c); simpl; [now rewrite IH | reflexivity].
Qed.

Lemma substring_take_while (p : ascii -> bool) (s : string) :
  String.substring 0 (String.length (take_while p s)) s = take_while p s.
Proof.
  transitivity (String.substring 0 (String.length (take_while p s))
                  (take_while p s +:+ drop_while p s)).
  - now rewrite take_drop_while.
  - apply substring_prefix.
Qed.

Lemma all_take_while (p : ascii -> bool) (s : string) :
  all p (take_while p s) = true.
Proof.
  induction s as [|c s IH]; simpl; [reflexivity |].
  destruct (p c) eqn:E; simpl; [now rewrite E | reflexivity].
Qed.

Lemma head_drop_while (p : ascii -> bool) (s : string) :
  head_sat p (drop_while p s) = false.
Proof.
  induction s as [|c s IH]; simpl; [reflexivity |].
  destruct (p c) eqn:E; simpl; [exact IH | exact E].
Qed.

(** A run of [p] followed by text that does not start with [p] is the
    longest run. *)
Lemma take_while_run (p : ascii -> bool) (a b : string) :
  all p a = true -> head_sat p b = false ->
  take_while p (a +:+ b) = a /\ drop_while p (a +:+ b) = b.
Proof.
  intros Ha Hb. induction a as [|c a IH]; simpl in *.
  - destruct b as [|c b]; simpl in *; [split; reflexivity |].
    rewrite Hb. split; reflexivity.
  - apply andb_true_iff in Ha as [Hc Ha]. rewrite Hc.
    destruct (IH Ha) as [-> ->]. split; reflexivity.
Qed.

Lemma head_sat_append (p : ascii -> bool) (a b : string) :
  a <> EmptyString -> head_sat p (a +:+ b) = head_sat p a.
Proof. destruct a; [congruence | reflexivity]. Qed.

End BytesFacts.

(** ** The backtracking search on the pattern *)

Section RegexpFacts.
Import Bytes.

Lemma backtrack_lit (w : string) :
  forall pos s caps k, backtrack (lit w) pos s caps k = try_word w pos s caps k.
Proof.
  unfold try_word. induction w as [|a w IH]; intros pos s caps k; simpl.
  - now rewrite Nat.add_0_r.
  - destruct s as [|b s]; [reflexivity |].
    destruct (Ascii.eqb a b); [| reflexivity].
    rewrite IH. now rewrite Nat.add_succ_r.
Qed.

(** Two words in a row are one word. *)
Lemma try_word_append (w1 w2 : string) pos s caps k :
  try_word w1 pos s caps (fun pos' s' caps' => try_word w2 pos' s' caps' k)
  = try_word (w1 +:+ w2) pos s caps k.
Proof.
  unfold try_word. revert pos s. induction w1 as [|a w1 IH]; intros pos s; simpl.
  - now rewrite Nat.add_0_r.
  - destruct s as [|b s]; [reflexivity |].
    destruct (Ascii.eqb a b); [| reflexivity].
    specialize (IH (S pos) s). rewrite !Nat.add_succ_r. simpl in IH.
    exact IH.
Qed.

(** A word before a choice: the choice moves outwards. *)
Lemma try_word_orelse (w : string) pos s caps (k1 k2 : cont) :
  try_word w pos s caps (fun p t c => orelse (k1 p t c) (k2 p t c))
  = orelse (try_word w pos s caps k1) (try_word w pos s caps k2).
Proof. unfold try_word. destruct (strip_prefix w s); reflexivity. Qed.

Lemma orelse_assoc (a b c : option found) :
  orelse (orelse a b) c = orelse a (orelse b c).
Proof. destruct a; reflexivity. Qed.

Lemma orelse_None_r (a : option found) : orelse a None = a.
Proof. destruct a; reflexivity. Qed.

Lemma backtrack_Alt r1 r2 pos s caps k :
  backtrack (Alt r1 r2) pos s caps k
  = orelse (backtrack r1 pos s caps k) (backtrack r2 pos s caps k).
Proof. reflexivity. Qed.

Lemma backtrack_Cat r1 r2 pos s caps k :
  backtrack (Cat r1 r2) pos s caps k
  = backtrack r1 pos s caps (fun pos' s' caps' => backtrack r2 pos' s' caps' k).
Proof. reflexivity. Qed.

Lemma backtrack_Cat_Alt r1 r2 r pos s caps k :
  backtrack (Cat (Alt r1 r2) r) pos s caps k
  = orelse (backtrack (Cat r1 r) pos s caps k) (backtrack (Cat r2 r) pos s caps k).
Proof. reflexivity. Qed.

Lemma try_word_ext (w : string) pos s caps (k1 k2 : cont) :
  (forall p t c, k1 p t c = k2 p t c) ->
  try_word w pos s caps k1 = try_word w pos s caps k2.
Proof.
  intros H. unfold try_word.
  destruct (strip_prefix w s); [apply H | reflexivity].
Qed.

(** A word followed by a choice between two words. *)
Lemma backtrack_word_choice (a c d : string) pos s caps k :
  backtrack (Cat (lit a) (Alt (lit c) (lit d))) pos s caps k
  = orelse (try_word (a +:+ c) pos s caps k) (try_word (a +:+ d) pos s caps k).
Proof.
  rewrite backtrack_Cat, backtrack_lit.
  rewrite <- !try_word_append, <- try_word_orelse.
  apply try_word_ext. intros p t c0.
  now rewrite backtrack_Alt, !backtrack_lit.
Qed.

Lemma backtrack_re_names pos s caps k :
  backtrack re_names pos s caps k = try_words field_names pos s caps k.
Proof.
  unfold re_names, field_names.
  rewrite !backtrack_Alt, backtrack_Cat_Alt, !backtrack_word_choice.
  rewrite !backtrack_lit. simpl String.append.
  simpl try_words. rewrite !orelse_assoc, orelse_None_r. reflexivity.
Qed.

(** A greedy star over a class runs to the end of the run, when the
    continuation cannot succeed inside the run or cannot fail at all. *)
Lemma iterate_class (p : ascii -> bool) (k : cont) :
  (forall pos t caps, head_sat p t = true -> k pos t caps = None) \/
  (forall pos t caps, k pos t caps <> None) ->
  forall s fuel pos caps,
    (String.length s <= fuel)%nat ->
    iterate (backtrack (Class p)) k fuel pos s caps
    = k (pos + String.length (take_while p s))%nat (drop_while p s) caps.
Proof.
  intros Hk. induction s as [|c s IH]; intros fuel pos caps Hfuel.
  - simpl. rewrite Nat.add_0_r. destruct fuel; reflexivity.
  - destruct fuel as [|fuel]; [simpl in Hfuel; lia |].
    simpl in Hfuel. simpl iterate. simpl take_while. simpl drop_while.
    destruct (p c) eqn:Hc.
    + replace (Nat.ltb pos (S pos)) with true
        by (symmetry; apply Nat.ltb_lt; lia).
      rewrite IH by lia.
      simpl String.length. rewrite Nat.add_succ_r. cbn [Nat.add].
      destruct Hk as [Hk | Hk].
      * rewrite (Hk pos (String c s) caps) by exact Hc. apply orelse_None_r.
      * destruct (k (S (pos + String.length (take_while p s)))
                    (drop_while p s) caps) eqn:E; [reflexivity |].
        now apply Hk in E.
    + simpl. now rewrite Nat.add_0_r.
Qed.

Lemma backtrack_Star_class (p : ascii -> bool) (k : cont) :
  (forall pos t caps, head_sat p t = true -> k pos t caps = None) \/
  (forall pos t caps, k pos t caps <> None) ->
  forall pos s caps,
    backtrack (Star (Class p)) pos s caps k
    = k (pos + String.length (take_while p s))%nat (drop_while p s) caps.
Proof. intros Hk pos s caps. simpl. now apply iterate_class. Qed.

Lemma space_not_digit (c : ascii) : is_space c = true -> is_digit c = false.
Proof.
  unfold is_space, is_digit. intros H.
  repeat (apply orb_true_iff in H as [H | H]);
    apply Z.eqb_eq in H; rewrite H; reflexivity.
Qed.

Lemma take_while_nonempty (p : ascii -> bool) (s : string) :
  take_while p s <> EmptyString <-> head_sat p s = true.
Proof.
  destruct s as [|c s]; simpl; [split; congruence |].
  destruct (p c); split; congruence.
Qed.

(** (\d+), the second group, before a continuation that cannot fail. *)
Lemma backtrack_digits (k : cont) pos s caps :
  (forall pos t caps, k pos t caps <> None) ->
  backtrack (Group 2 (Plus (Class is_digit))) pos s caps k
  = match take_while is_digit s with
    | EmptyString => None
    | d => k (pos + String.length d)%nat (drop_while is_digit s) ((2%nat, d) :: caps)
    end.
Proof.
  intros Hk. unfold Plus.
  change (backtrack (Group 2 (Cat (Class is_digit) (Star (Class is_digit)))) pos s caps k)
    with (match s with
          | String c s' =>
              if is_digit c then
                backtrack (Star (Class is_digit)) (S pos) s' caps
                  (fun pos' t caps' =>
                     k pos' t ((2%nat, String.substring 0 (pos' - pos) s) :: caps'))
              else None
          | EmptyString => None
          end).
  destruct s as [|c s]; [reflexivity |].
  simpl take_while. simpl drop_while. destruct (is_digit c) eqn:Hc; [| reflexivity].
  rewrite backtrack_Star_class by (right; intros; apply Hk).
  replace (S pos + String.length (take_while is_digit s) - pos)%nat
    with (String.length (String c (take_while is_digit s))) by (simpl; lia).
  assert (E : take_while is_digit (String c s) = String c (take_while is_digit s))
    by (simpl; now rewrite Hc).
  rewrite <- E, substring_take_while, E. simpl String.length.
  now rewrite Nat.add_succ_r.
Qed.

(** :\s*(\d+), what follows the field name. *)
Lemma backtrack_tail (k : cont) pos s caps :
  (forall pos t caps, k pos t caps <> None) ->
  backtrack (Cat (Lit ":") (Cat (Star (Class is_space))
                                (Group 2 (Plus (Class is_digit))))) pos s caps k
  = match numeric_tail s with
    | Some (t, d) =>
        k (pos + String.length t)%nat
          (drop_while is_digit (drop_while is_space (Bufio.drop 1 s)))
          ((2%nat, d) :: caps)
    | None => None
    end.
Proof.
  intros Hk.
  change (backtrack (Cat (Lit ":") (Cat (Star (Class is_space))
                                (Group 2 (Plus (Class is_digit))))) pos s caps k)
    with (match s with
          | String c s1 =>
              if Ascii.eqb ":" c then
                backtrack (Star (Class is_space)) (S pos) s1 caps
                  (fun pos' t caps' =>
                     backtrack (Group 2 (Plus (Class is_digit))) pos' t caps' k)
              else None
          | EmptyString => None
          end).
  unfold numeric_tail. destruct s as [|c s1]; [reflexivity |].
  destruct (Ascii.eqb ":" c); [| reflexivity].
  rewrite backtrack_Star_class.
  - rewrite backtrack_digits by exact Hk. simpl Bufio.drop.
    destruct (take_while is_digit (drop_while is_space s1)) as [|x d] eqn:Ed;
      [reflexivity |].
    f_equal. simpl String.length. rewrite length_append. simpl String.length. lia.
  - left. intros pos' t caps' Ht.
    rewrite backtrack_digits by exact Hk.
    destruct t as [|x t]; [reflexivity |]. simpl in Ht.
    simpl take_while. now rewrite (space_not_digit x Ht).
Qed.

Lemma numeric_tail_Some (s t d : string) :
  numeric_tail s = Some (t, d) ->
  exists ws,
    t = ":" +:+ ws +:+ d /\
    s = t +:+ drop_while is_digit (drop_while is_space (Bufio.drop 1 s)) /\
    all is_space ws = true /\ all is_digit d = true /\
    d <> EmptyString /\
    d = take_while is_digit (drop_while is_space (Bufio.drop 1 s)).
Proof.
  unfold numeric_tail. destruct s as [|c s1]; [discriminate |].
  destruct (Ascii.eqb_spec ":" c) as [<- | _]; [| discriminate].
  destruct (take_while is_digit (drop_while is_space s1)) as [|x d'] eqn:Ed;
    [discriminate |].
  intros [= <- <-]. exists (take_while is_space s1). simpl Bufio.drop.
  repeat split.
  - simpl. f_equal. rewrite append_assoc, <- Ed.
    now rewrite take_drop_while, take_drop_while.
  - apply all_take_while.
  - rewrite <- Ed. apply all_take_while.
  - discriminate.
  - now rewrite Ed.
Qed.

(** What [first_field] returns: the matched text, the name, the digits. *)
Lemma first_field_Some (names : list string) (line : string) (stat : list string) :
  first_field names line = Some stat ->
  exists n t d rest,
    stat = [n +:+ t; n; d] /\ In n names /\
    line = n +:+ t +:+ rest /\ numeric_tail (t +:+ rest) = Some (t, d).
Proof.
  induction names as [|n ns IH]; simpl; [discriminate |].
  destruct (strip_prefix n line) as [s'|] eqn:Es.
  - destruct (numeric_tail s') as [[t d]|] eqn:Et.
    + intros [= <-]. apply strip_prefix_Some in Es.
      destruct (numeric_tail_Some _ _ _ Et) as (ws & _ & Hs' & _).
      exists n, t, d, (drop_while is_digit (drop_while is_space (Bufio.drop 1 s'))).
      rewrite <- Hs'. repeat split; auto.
    + intros H. destruct (IH H) as (n' & t & d & rest & ? & ? & ?).
      exists n', t, d, rest. repeat split; tauto.
  - intros H. destruct (IH H) as (n' & t & d & rest & ? & ? & ?).
    exists n', t, d, rest. repeat split; tauto.
Qed.

Lemma try_words_first_field (names : list string) (line : string) :
  try_words names 0 line []
    (fun pos' s' caps' =>
       backtrack (Cat (Lit ":") (Cat (Star (Class is_space))
                                     (Group 2 (Plus (Class is_digit)))))
         pos' s' ((1%nat, String.substring 0 (pos' - 0) line) :: caps') accept)
  = found_of (first_field names line).
Proof.
  induction names as [|n ns IH]; [reflexivity |].
  cbn [try_words first_field]. unfold try_word at 1.
  destruct (strip_prefix n line) as [s'|] eqn:Es; [| exact IH].
  cbn beta. rewrite backtrack_tail by discriminate.
  apply strip_prefix_Some in Es.
  destruct (numeric_tail s') as [[t d]|]; [| exact IH].
  simpl. rewrite Nat.sub_0_r, length_append. subst line.
  now rewrite substring_prefix.
Qed.

Lemma backtrack_re (line : string) :
  backtrack re 0 line [] accept = found_of (match_line line).
Proof.
  unfold match_line. rewrite <- try_words_first_field.
  rewrite <- backtrack_re_names. reflexivity.
Qed.

(** The anchor fails at every later offset. *)
Lemma find_from_re_later (s : string) :
  forall pos, find_from re (S pos) s = None.
Proof. induction s as [|c s IH]; intros pos; [reflexivity | exact (IH (S pos))]. Qed.

(** The search of the pattern is the loop over the field names. *)
Lemma FindStringSubmatch_re (line : string) :
  FindStringSubmatch re 2 line = match_line line.
Proof.
  unfold FindStringSubmatch.
  assert (E : find_from re 0 line = found_of (match_line line)).
  { destruct line as [|c s].
    - reflexivity.
    - change (find_from re 0 (String c s))
        with (match backtrack re 0 (String c s) [] accept with
              | Some m => Some m
              | None => find_from re 1 s
              end).
      rewrite backtrack_re, find_from_re_later.
      now destruct (found_of (match_line (String c s))). }
  rewrite E. unfold match_line.
  destruct (first_field field_names line) as [stat|] eqn:Ef; [| reflexivity].
  destruct (first_field_Some _ _ _ Ef) as (n & t & d & rest & -> & _ & Hl & _).
  simpl. rewrite Nat.sub_0_r. subst line.
  now rewrite <- append_assoc, substring_prefix.
Qed.

End RegexpFacts.

(** ** ParseUint on digit strings *)

Section StrconvFacts.
Import Bytes Strconv.

Lemma modulus_value : Uint64.modulus = 18446744073709551616.
Proof. reflexivity. Qed.

Lemma maxUint64_value : Uint64.maxUint64 = 18446744073709551615.
Proof. reflexivity. Qed.

Lemma wrap_small (z : Z) : Uint64.in_range z -> Uint64.wrap z = z.
Proof. unfold Uint64.in_range, Uint64.wrap. intros H. now apply Z.mod_small. Qed.

Lemma wrap_in_range (z : Z) : Uint64.in_range (Uint64.wrap z).
Proof.
  unfold Uint64.in_range, Uint64.wrap. apply Z.mod_pos_bound.
  rewrite modulus_value. lia.
Qed.

Lemma digitVal_digit (c : ascii) :
  is_digit c = true ->
  digitVal c = Some (code c - 48) /\ 0 <= code c - 48 < 10.
Proof.
  unfold is_digit, digitVal. intros H. rewrite H.
  apply andb_true_iff in H as [H1 H2].
  apply Z.leb_le in H1, H2. split; [reflexivity | lia].
Qed.

Lemma decimal_acc_ge (s : string) :
  all is_digit s = true -> forall n, 0 <= n -> n <= decimal_acc s n.
Proof.
  induction s as [|c s IH]; simpl; intros Hs n Hn; [lia |].
  apply andb_true_iff in Hs as [Hc Hs].
  destruct (digitVal_digit c Hc) as [_ Hd].
  specialize (IH Hs (10 * n + (code c - 48))). lia.
Qed.

(** The loop on digits: the number, or a range error once it passes
    2^64 - 1. *)
Lemma parseLoop_digits (s : string) :
  all is_digit s = true ->
  forall n, 0 <= n <= Uint64.maxUint64 ->
    parseLoop 10 (Uint64.maxUint64 / 10 + 1) Uint64.maxUint64 s n
    = if decimal_acc s n <=? Uint64.maxUint64
      then (decimal_acc s n, None)
      else (Uint64.maxUint64, Some ErrRange).
Proof.
  rewrite maxUint64_value.
  change (18446744073709551615 / 10 + 1) with 1844674407370955162.
  induction s as [|c s IH]; intros Hs n Hn.
  - simpl. destruct (Z.leb_spec n 18446744073709551615); [reflexivity | lia].
  - simpl in Hs. apply andb_true_iff in Hs as [Hc Hs].
    destruct (digitVal_digit c Hc) as [Ed Hd].
    pose proof (decimal_acc_ge s Hs (10 * n + (code c - 48))) as Hge.
    cbn [parseLoop decimal_acc]. rewrite Ed.
    destruct (Z.leb_spec 10 (code c - 48)) as [|_]; [lia |].
    destruct (Z.leb_spec 1844674407370955162 n) as [Hcut | Hcut].
    + destruct (Z.leb_spec (decimal_acc s (10 * n + (code c - 48)))
                           18446744073709551615); [lia | reflexivity].
    + unfold Uint64.mul, Uint64.add.
      rewrite (wrap_small (n * 10))
        by (unfold Uint64.in_range; rewrite modulus_value; lia).
      destruct (Z.leb_spec (10 * n + (code c - 48)) 18446744073709551615)
        as [Hfit | Hover].
      * rewrite (wrap_small (n * 10 + (code c - 48)))
          by (unfold Uint64.in_range; rewrite modulus_value; lia).
        destruct (Z.ltb_spec (n * 10 + (code c - 48)) (n * 10)); [lia |].
        destruct (Z.ltb_spec 18446744073709551615 (n * 10 + (code c - 48))); [lia |].
        cbn [orb].
        replace (n * 10 + (code c - 48)) with (10 * n + (code c - 48)) by lia.
        apply IH; [exact Hs | lia].
      * assert (Ew : Uint64.wrap (n * 10 + (code c - 48))
                     = n * 10 + (code c - 48) - 18446744073709551616).
        { unfold Uint64.wrap. rewrite modulus_value.
          symmetry. apply Z.mod_unique with (q := 1); lia. }
        rewrite Ew.
        destruct (Z.ltb_spec (n * 10 + (code c - 48) - 18446744073709551616) (n * 10));
          [| lia].
        cbn [orb].
        destruct (Z.leb_spec (decimal_acc s (10 * n + (code c - 48)))
                             18446744073709551615); [lia | reflexivity].
Qed.

(** ParseUint on a nonempty digit string. *)
Lemma ParseUint_digits (d : string) :
  all is_digit d = true -> d <> EmptyString ->
  ParseUint10_64 d
  = if decimal d <=? Uint64.maxUint64
    then (decimal d, None)
    else (Uint64.maxUint64, Some (rangeError d)).
Proof.
  intros Hd Hne. unfold ParseUint10_64, decimal.
  destruct d as [|c d]; [congruence |].
  change (Uint64.sub (Uint64.wrap (Z.shiftl 1 64)) 1) with Uint64.maxUint64.
  rewrite (parseLoop_digits _ Hd 0) by (rewrite maxUint64_value; lia).
  destruct (decimal_acc (String c d) 0 <=? Uint64.maxUint64); reflexivity.
Qed.

Lemma decimal_nonneg (d : string) : all is_digit d = true -> 0 <= decimal d.
Proof. intros H. apply (decimal_acc_ge d H 0). lia. Qed.

End StrconvFacts.

(** ** Lines, entries and the loop *)

Section LoopFacts.
Import Bytes Strconv.

Lemma digit_not_space (c : ascii) : is_digit c = true -> is_space c = false.
Proof.
  intros Hd. destruct (is_space c) eqn:Hs; [| reflexivity].
  apply space_not_digit in Hs. congruence.
Qed.

Lemma numeric_tail_shape (ws d rest : string) :
  all is_space ws = true -> all is_digit d = true -> d <> EmptyString ->
  head_sat is_digit rest = false ->
  numeric_tail (":" +:+ ws +:+ d +:+ rest) = Some (":" +:+ ws +:+ d, d).
Proof.
  intros Hws Hd Hne Hrest.
  assert (Hhead : head_sat is_space (d +:+ rest) = false).
  { destruct d as [|x d]; [congruence |]. simpl in *.
    apply andb_true_iff in Hd as [Hx _]. now apply digit_not_space. }
  change (":" +:+ ws +:+ d +:+ rest) with (String ":" (ws +:+ d +:+ rest)).
  unfold numeric_tail. rewrite Ascii.eqb_refl.
  destruct (take_while_run is_space ws (d +:+ rest) Hws Hhead) as [-> ->].
  destruct (take_while_run is_digit d rest Hd Hrest) as [-> _].
  destruct d; [congruence | reflexivity].
Qed.

(** The pattern finds exactly the lines of the recognised shape. *)
Lemma match_line_shape (line n d : string) :
  (exists w, match_line line = Some [w; n; d]) <-> recognized_shape line n d.
Proof.
  split.
  - intros [w Hm]. unfold match_line in Hm.
    destruct (first_field_Some _ _ _ Hm) as (n' & t & d' & rest & E & Hin & Hl & Ht).
    injection E as -> -> ->.
    destruct (numeric_tail_Some _ _ _ Ht) as (ws & Et & Es & Hws & Hd & Hne & _).
    apply (inj (String.append t)) in Es.
    split; [exact Hin |]. exists ws, rest. repeat split; try assumption.
    + rewrite Hl, Et. simpl. now rewrite append_assoc.
    + rewrite Es. apply head_drop_while.
  - intros (Hin & ws & rest & -> & Hws & Hd & Hne & Hrest).
    pose proof (numeric_tail_shape ws d rest Hws Hd Hne Hrest) as Ht.
    exists (n +:+ ":" +:+ ws +:+ d). unfold match_line.
    unfold field_names in Hin. simpl in Hin.
    repeat (destruct Hin as [<- | Hin];
            [simpl; simpl in Ht; rewrite Ht; reflexivity |]).
    contradiction.
Qed.

Lemma match_line_length (line : string) (stat : list string) :
  match_line line = Some stat -> exists w n d, stat = [w; n; d].
Proof.
  intros H. destruct (first_field_Some _ _ _ H) as (n & t & d & _ & -> & _).
  eauto.
Qed.

Lemma shape_digits (line n d : string) :
  recognized_shape line n d -> all is_digit d = true /\ d <> EmptyString.
Proof. intros (_ & ws & rest & _ & _ & Hd & Hne & _). now split. Qed.

(** The entry of a line: the field name and the number of a recognised
    line whose number fits in 64 bits. *)
Lemma entry_of_Some (line k : string) (v : Z) :
  entry_of line = Some (k, v) <->
  exists d, recognized_shape line k d /\ decimal d <= Uint64.maxUint64 /\ v = decimal d.
Proof.
  unfold entry_of. rewrite FindStringSubmatch_re. split.
  - destruct (match_line line) as [stat|] eqn:Hm; [| discriminate].
    destruct (match_line_length _ _ Hm) as (w & n & d & ->). simpl nth.
    assert (Hs : recognized_shape line n d) by (apply match_line_shape; eauto).
    destruct (shape_digits _ _ _ Hs) as [Hd Hne].
    rewrite (ParseUint_digits d Hd Hne).
    destruct (Z.leb_spec (decimal d) Uint64.maxUint64); [| discriminate].
    intros [= <- <-]. eauto.
  - intros (d & Hs & Hfit & ->).
    destruct (shape_digits _ _ _ Hs) as [Hd Hne].
    apply match_line_shape in Hs as [w ->]. simpl nth.
    rewrite (ParseUint_digits d Hd Hne).
    destruct (Z.leb_spec (decimal d) Uint64.maxUint64); [reflexivity | lia].
Qed.


Lemma entry_of_field (line k : string) (v : Z) :
  entry_of line = Some (k, v) -> In k field_names /\ Uint64.in_range v.
Proof.
  intros E. apply entry_of_Some in E as (d & Hs & Hfit & ->).
  destruct (shape_digits _ _ _ Hs) as [Hd _].
  split; [apply Hs |].
  pose proof (decimal_nonneg d Hd). unfold Uint64.in_range.
  rewrite maxUint64_value in Hfit. rewrite modulus_value. lia.
Qed.

(** The loop body on the mapping. *)
Lemma loop_body_memStats (st : state) (line : string) :
  memStats (loop_body st line)
  = match entry_of line with
    | Some (k, v) => <[k := v]> (memStats st)
    | None => memStats st
    end.
Proof.
  unfold loop_body, entry_of.
  destruct (FindStringSubmatch re 2 line) as [stat|]; [| reflexivity].
  destruct (ParseUint10_64 (nth 2 stat EmptyString)) as [value [err|]]; reflexivity.
Qed.

End LoopFacts.

(** ** The scan and the derived keys *)

Section ScanFacts.
Import Bytes Strconv.

Lemma scan_loop_memStats (ls : list string) :
  forall st, memStats (scan_loop st ls) = collect (memStats st) ls.
Proof.
  unfold scan_loop, collect. induction ls as [|l ls IH]; intros st; simpl.
  - reflexivity.
  - now rewrite IH, loop_body_memStats.
Qed.

Lemma collect_app (m : gmap string Z) (l1 l2 : list string) :
  collect m (l1 ++ l2) = collect (collect m l1) l2.
Proof. apply fold_left_app. Qed.

Lemma collect_cons (m : gmap string Z) (l : string) (ls : list string) :
  collect m (l :: ls)
  = collect (match entry_of l with
             | Some (k, v) => <[k := v]> m
             | None => m
             end) ls.
Proof. reflexivity. Qed.


(** A key no line stores keeps what it had. *)
Lemma collect_untouched (k : string) (ls : list string) :
  (forall l v, In l ls -> entry_of l <> Some (k, v)) ->
  forall m, collect m ls !! k = m !! k.
Proof.
  induction ls as [|l ls IH]; intros Hno m; [reflexivity |].
  rewrite collect_cons, IH by (intros l' v Hin; apply Hno; now right).
  destruct (entry_of l) as [[k' v']|] eqn:E; [| reflexivity].
  apply lookup_insert_ne. intros ->. now apply (Hno l v'); [left |].
Qed.


Lemma collect_uint64 (ls : list string) :
  forall m, all_uint64 m -> all_uint64 (collect m ls).
Proof.
  induction ls as [|l ls IH]; intros m Hm; [exact Hm |].
  rewrite collect_cons. apply IH.
  destruct (entry_of l) as [[k v]|] eqn:E; [| exact Hm].
  intros k' v' Hk'. destruct (decide (k = k')) as [<- | Hne].
  - rewrite lookup_insert_eq in Hk'. injection Hk' as <-.
    now apply (entry_of_field l k v).
  - rewrite lookup_insert_ne in Hk' by exact Hne. now apply (Hm k').
Qed.

(** Only field names become keys during the scan. *)
Lemma collect_keys (ls : list string) :
  forall m k, collect m ls !! k <> None -> m !! k <> None \/ In k field_names.
Proof.
  induction ls as [|l ls IH]; intros m k Hk; [now left |].
  rewrite collect_cons in Hk. apply IH in Hk as [Hk | Hk]; [| now right].
  destruct (entry_of l) as [[k' v']|] eqn:E; [| now left].
  destruct (decide (k' = k)) as [<- | Hne].
  - right. now apply (entry_of_field l k' v').
  - left. now rewrite lookup_insert_ne in Hk.
Qed.

Lemma derived_not_field (k : string) : In k derived_names -> ~ In k field_names.
Proof.
  unfold derived_names, field_names. simpl.
  intros [<- | [<- | [<- | []]]] H;
    repeat (destruct H as [H | H]; [discriminate H |]); exact H.
Qed.

Lemma derive_MemUsed (m : gmap string Z) :
  derive m !! "MemUsed" = Some (Uint64.sub (index m "MemTotal") (index m "MemFree")).
Proof.
  unfold derive.
  now rewrite !lookup_insert_ne, lookup_insert_eq by discriminate.
Qed.

Lemma index_insert_ne (m : gmap string Z) (k k' : string) (v : Z) :
  k <> k' -> index (<[k := v]> m) k' = index m k'.
Proof. intros H. unfold index. now rewrite lookup_insert_ne. Qed.

Lemma derive_SwapUsed (m : gmap string Z) :
  derive m !! "SwapUsed" = Some (Uint64.sub (index m "SwapTotal") (index m "SwapFree")).
Proof.
  unfold derive. rewrite lookup_insert_ne, lookup_insert_eq by discriminate.
  now rewrite !index_insert_ne by discriminate.
Qed.

Lemma derive_RealFree (m : gmap string Z) :
  derive m !! "RealFree"
  = Some (Uint64.add (Uint64.add (index m "MemFree") (index m "Buffers"))
                     (index m "Cached")).
Proof.
  unfold derive. rewrite lookup_insert_eq.
  now rewrite !index_insert_ne by discriminate.
Qed.

(** The assignments after the loop touch the derived keys only. *)
Lemma derive_other (m : gmap string Z) (k : string) :
  ~ In k derived_names -> derive m !! k = m !! k.
Proof.
  intros H. unfold derive. unfold derived_names in H. simpl in H.
  rewrite !lookup_insert_ne; [reflexivity | | |]; intros <-; tauto.
Qed.

Lemma index_derive (m : gmap string Z) (k : string) :
  ~ In k derived_names -> index (derive m) k = index m k.
Proof. intros H. unfold index. now rewrite derive_other. Qed.

Lemma getMemStats_opened (fs : filesystem) (content : string) :
  fs "/proc/meminfo" = inr content ->
  getMemStats fs
  = mkOutcome (Some (derive (collect ∅ (Bufio.lines content)))) None
              (printed (scan_loop init (Bufio.lines content))).
Proof. intros H. unfold getMemStats. rewrite H. now rewrite scan_loop_memStats. Qed.

Lemma getMemStats_Some (fs : filesystem) (m : gmap string Z) :
  ret_memStats (getMemStats fs) = Some m ->
  exists content,
    fs "/proc/meminfo" = inr content /\
    m = derive (collect ∅ (Bufio.lines content)).
Proof.
  unfold getMemStats. destruct (fs "/proc/meminfo") as [e | content] eqn:E.
  - discriminate.
  - simpl. intros [= <-]. exists content. now rewrite scan_loop_memStats.
Qed.

Lemma all_uint64_empty : all_uint64 ∅.
Proof. intros k v H. now rewrite lookup_empty in H. Qed.

End ScanFacts.

Section FieldFacts.
Import Bytes Strconv.

(** On a recognised line, the text before the colon is the field name and
    the text where the number is expected is the digit run. *)
Lemma shape_field_and_number (line n d : string) :
  recognized_shape line n d -> field_of line = n /\ numeric_portion line = d.
Proof.
  intros (Hin & ws & rest & -> & Hws & Hd & Hne & Hrest).
  assert (Hhead : head_sat is_space (d +:+ rest) = false).
  { destruct d as [|x d]; [congruence |]. simpl in *.
    apply andb_true_iff in Hd as [Hx _]. now apply digit_not_space. }
  destruct (take_while_run is_space ws (d +:+ rest) Hws Hhead) as [_ Hdrop].
  destruct (take_while_run is_digit d rest Hd Hrest) as [Htake _].
  unfold field_names in Hin. simpl in Hin.
  repeat (destruct Hin as [<- | Hin];
          [split; [reflexivity | unfold numeric_portion; simpl; now rewrite Hdrop] |]).
  contradiction.
Qed.


End FieldFacts.

(** ** The scanner *)

Section BufioFacts.
Import Bufio.

Lemma IndexByte_lt (s : string) (c : ascii) (i : nat) :
IndexByte s c = Some i -> (i < String.length s)%nat.
Proof.
revert i. induction s as [|b s IH]; simpl; intros i; [discriminate |].
destruct (Ascii.eqb b c).
- intros [= <-]. lia.
- destruct (IndexByte s c) as [j|]; [| discriminate].
  intros [= <-]. specialize (IH j eq_refl). lia.
Qed.

Lemma length_take (n : nat) (s : string) :
String.length (take n s) = Nat.min n (String.length s).
Proof.
revert s. induction n as [|n IH]; intros [|c s]; simpl; try reflexivity.
now rewrite IH.
Qed.

Lemma length_drop (n : nat) (s : string) :
String.length (drop n s) = (String.length s - n)%nat.
Proof.
revert s. induction n as [|n IH]; intros [|c s]; simpl; try reflexivity.
apply IH.
Qed.

Lemma take_all (n : nat) (s : string) :
(String.length s <= n)%nat -> take n s = s.
Proof.
revert s. induction n as [|n IH]; intros [|c s]; simpl; intros H;
  try reflexivity; [lia |].
rewrite IH by lia. reflexivity.
Qed.

(** Every token takes at least one byte off the input. *)
Lemma Scan_shrinks (rest tok rest' : string) :
Scan rest = Some (tok, rest') -> (String.length rest' < String.length rest)%nat.
Proof.
unfold Scan, ScanLines.
set (buf := take MaxScanTokenSize rest).
destruct (Nat.ltb_spec (String.length rest) MaxScanTokenSize) as [Hlt | Hge].
- assert (Ebuf : buf = rest) by (apply take_all; lia). rewrite Ebuf.
  destruct (Nat.eqb_spec (String.length rest) 0) as [E0 | Hne]; cbn [andb];
    [discriminate |].
  destruct (IndexByte rest newline) as [i|] eqn:Ei.
  + intros [= _ <-]. apply IndexByte_lt in Ei.
    change (String.length (drop (S i) rest) < String.length rest)%nat.
    rewrite length_drop. lia.
  + intros [= _ <-]. rewrite length_drop. lia.
- cbn [andb]. destruct (IndexByte buf newline) as [i|] eqn:Ei; [| discriminate].
  intros [= _ <-]. apply IndexByte_lt in Ei.
  change (String.length (drop (S i) rest) < String.length rest)%nat.
  unfold buf in Ei. rewrite length_take in Ei. rewrite length_drop. lia.
Qed.

(** The scan does not depend on the fuel, once there is more of it than
  input. *)
Lemma scan_all_fuel (fuel1 : nat) :
forall fuel2 rest,
  (String.length rest < fuel1)%nat -> (String.length rest < fuel2)%nat ->
  scan_all fuel1 rest = scan_all fuel2 rest.
Proof.
induction fuel1 as [|f1 IH]; intros fuel2 rest H1 H2; [lia |].
destruct fuel2 as [|f2]; [lia |]. simpl.
destruct (Scan rest) as [[tok rest']|] eqn:Es; [| reflexivity].
apply Scan_shrinks in Es. f_equal. apply IH; lia.
Qed.

Lemma lines_fuel (fuel : nat) (content : string) :
(String.length content < fuel)%nat -> scan_all fuel content = lines content.
Proof. intros H. unfold lines. apply scan_all_fuel; lia. Qed.

Lemma IndexByte_append (a rest : string) (c : ascii) :
IndexByte a c = None ->
IndexByte (a +:+ String c rest) c = Some (String.length a).
Proof.
induction a as [|b a IH]; simpl.
- now rewrite Ascii.eqb_refl.
- destruct (Ascii.eqb b c); [discriminate |].
  destruct (IndexByte a c); [discriminate |].
  intros _. now rewrite IH.
Qed.

Lemma IndexByte_take (n : nat) (s : string) (c : ascii) (i : nat) :
IndexByte s c = Some i -> (i < n)%nat -> IndexByte (take n s) c = Some i.
Proof.
revert s i. induction n as [|n IH]; intros s i Hi Hn; [lia |].
destruct s as [|b s]; [discriminate |]. simpl in *.
destruct (Ascii.eqb b c); [exact Hi |].
destruct (IndexByte s c) as [j|] eqn:Ej; [| discriminate].
injection Hi as <-. rewrite (IH s j Ej) by lia. reflexivity.
Qed.

Lemma take_take_append (n : nat) (a b : string) :
(String.length a <= n)%nat -> take (String.length a) (take n (a +:+ b)) = a.
Proof.
revert n. induction a as [|x a IH]; intros n Hn; simpl in *.
- destruct (take n b); reflexivity.
- destruct n as [|n]; [lia |]. simpl. rewrite IH by lia. reflexivity.
Qed.

Lemma drop_append (a b : string) (c : ascii) :
drop (S (String.length a)) (a +:+ String c b) = b.
Proof. induction a as [|x a IH]; simpl; [reflexivity | exact IH]. Qed.

(** A source that starts with a line shorter than the buffer: the scanner
  delivers it, without its carriage return, and goes on after the
  newline. *)
Lemma lines_cons (a rest : string) :
IndexByte a newline = None ->
(String.length a < MaxScanTokenSize)%nat ->
lines (a +:+ String newline rest) = dropCR a :: lines rest.
Proof.
intros Hnl Hlen. unfold lines at 1.
change (scan_all (S (String.length (a +:+ String newline rest)))
          (a +:+ String newline rest))
  with (match Scan (a +:+ String newline rest) with
        | Some (tok, rest') =>
            tok :: scan_all (String.length (a +:+ String newline rest)) rest'
        | None => []
        end).
assert (Es : Scan (a +:+ String newline rest) = Some (dropCR a, rest)).
{ unfold Scan, ScanLines.
  pose proof (IndexByte_append a rest newline Hnl) as Hi.
  rewrite (IndexByte_take _ _ _ _ Hi Hlen).
  rewrite length_take, length_append. simpl String.length.
  replace (Nat.eqb (Nat.min MaxScanTokenSize
                            (String.length a + S (String.length rest))) 0)
    with false by (symmetry; apply Nat.eqb_neq; lia).
  rewrite andb_false_r.
  rewrite take_take_append by lia. now rewrite drop_append. }
rewrite Es. f_equal. apply lines_fuel.
rewrite length_append. simpl. lia.
Qed.

(** The end of the source: nothing after the last newline gives no further
  line; a rest without a newline and shorter than the buffer is the last
  line. *)
Lemma lines_nil : lines EmptyString = [].
Proof. reflexivity. Qed.

Lemma lines_last (a : string) :
a <> EmptyString ->
IndexByte a newline = None ->
(String.length a < MaxScanTokenSize)%nat ->
lines a = [dropCR a].
Proof.
intros Hne Hnl Hlen. unfold lines.
change (scan_all (S (String.length a)) a)
  with (match Scan a with
        | Some (tok, rest') => tok :: scan_all (String.length a) rest'
        | None => []
        end).
assert (Es : Scan a = Some (dropCR a, EmptyString)).
{ unfold Scan, ScanLines. rewrite (take_all MaxScanTokenSize a) by lia.
  rewrite Hnl.
  replace (Nat.ltb (String.length a) MaxScanTokenSize) with true
    by (symmetry; apply Nat.ltb_lt; lia).
  replace (Nat.eqb (String.length a) 0) with false
    by (symmetry; apply Nat.eqb_neq; destruct a; [congruence | simpl; lia]).
  simpl. f_equal. f_equal.
  assert (H : String.length (drop (String.length a) a) = 0%nat)
    by (rewrite length_drop; lia).
  destruct (drop (String.length a) a); [reflexivity | discriminate]. }
rewrite Es. destruct a; [congruence | reflexivity].
Qed.

(** A line that fills the buffer ends the scan: the lines after it are not
  delivered. *)
Lemma lines_too_long (a : string) :
IndexByte (take MaxScanTokenSize a) newline = None ->
(MaxScanTokenSize <= String.length a)%nat ->
lines a = [].
Proof.
intros Hnl Hlen. unfold lines.
change (scan_all (S (String.length a)) a)
  with (match Scan a with
        | Some (tok, rest') => tok :: scan_all (String.length a) rest'
        | None => []
        end).
unfold Scan, ScanLines. rewrite Hnl.
replace (Nat.ltb (String.length a) MaxScanTokenSize) with false
  by (symmetry; apply Nat.ltb_ge; lia).
reflexivity.
Qed.

Lemma long_line_ends_scan : lines long_source = ["MemTotal: 1 kB"].
Proof. vm_compute. reflexivity. Qed.

End BufioFacts.

(** ** Contributions of a line *)

Section Contribution.
Import Bytes Strconv.



(** The loop body on a line the pattern finds. *)
Lemma loop_body_matched (st : state) (line w n d : string) :
  match_line line = Some [w; n; d] ->
  loop_body st line
  = if decimal d <=? Uint64.maxUint64
    then mkState (<[n := decimal d]> (memStats st)) (printed st)
    else mkState (memStats st) (printed st ++ [rangeError d]).
Proof.
  intros Hm. unfold loop_body. rewrite FindStringSubmatch_re, Hm. simpl nth.
  assert (Hs : recognized_shape line n d) by (apply match_line_shape; eauto).
  destruct (shape_digits _ _ _ Hs) as [Hd Hne].
  rewrite (ParseUint_digits d Hd Hne).
  destruct (decimal d <=? Uint64.maxUint64); reflexivity.
Qed.

(** The loop body on a line the pattern does not find. *)
Lemma loop_body_unmatched (st : state) (line : string) :
  match_line line = None -> loop_body st line = st.
Proof. intros Hm. unfold loop_body. now rewrite FindStringSubmatch_re, Hm. Qed.

Lemma unrecognized_field_unmatched (line : string) :
  ~ In (field_of line) field_names -> match_line line = None.
Proof.
  intros Hf. destruct (match_line line) as [stat|] eqn:Hm; [| reflexivity].
  destruct (match_line_length _ _ Hm) as (w & n & d & ->).
  assert (Hs : recognized_shape line n d) by (apply match_line_shape; eauto).
  destruct (shape_field_and_number _ _ _ Hs) as [E _].
  exfalso. apply Hf. rewrite E. apply Hs.
Qed.

Lemma scan_loop_app (st : state) (l1 l2 : list string) :
  scan_loop st (l1 ++ l2) = scan_loop (scan_loop st l1) l2.
Proof. apply fold_left_app. Qed.

End Contribution.

(** * The claims *)

Import Bytes Strconv.



(** C3. When /proc/meminfo cannot be opened, getMemStats returns the error
    of the open and no mapping, at once; when it can be opened, getMemStats
    returns a mapping and no error.  So a failed open is the only way to an
    error. *)
Theorem error_only_from_open (fs : filesystem) :
  match fs "/proc/meminfo" with
  | inl err => getMemStats fs = mkOutcome None (Some err) []
  | inr content =>
      exists m, ret_memStats (getMemStats fs) = Some m /\
                ret_err (getMemStats fs) = None
  end.
Proof.
  unfold getMemStats. destruct (fs "/proc/meminfo") as [err | content].
  - reflexivity.
  - eexists. split; reflexivity.
Qed.



(** C5. A derived value is computed with an absent input read as zero, in
    arithmetic modulo 2^64; with MemTotal absent from the collected mapping
    and MemFree present with a value n > 0, MemUsed is 2^64 - n. *)
Theorem absent_inputs_read_as_zero (fs : filesystem) (content : string)
        (m : gmap string Z) :
  fs "/proc/meminfo" = inr content ->
  ret_memStats (getMemStats fs) = Some m ->
  let c := memStats (scan_loop init (Bufio.lines content)) in
  m !! "MemUsed"
  = Some ((default 0 (c !! "MemTotal") - default 0 (c !! "MemFree")) mod 2 ^ 64) /\
  m !! "SwapUsed"
  = Some ((default 0 (c !! "SwapTotal") - default 0 (c !! "SwapFree")) mod 2 ^ 64) /\
  m !! "RealFree"
  = Some (((default 0 (c !! "MemFree") + default 0 (c !! "Buffers")) mod 2 ^ 64
           + default 0 (c !! "Cached")) mod 2 ^ 64) /\
  (forall n, c !! "MemTotal" = None -> c !! "MemFree" = Some n -> 0 < n ->
             m !! "MemUsed" = Some (2 ^ 64 - n)).
Proof.
  intros Hfs Hm c.
  rewrite (getMemStats_opened fs content Hfs) in Hm. simpl in Hm.
  injection Hm as <-.
  assert (Ec : c = collect ∅ (Bufio.lines content))
    by (unfold c; now rewrite scan_loop_memStats).
  rewrite <- Ec, derive_MemUsed, derive_SwapUsed, derive_RealFree.
  assert (Hidx : forall k, index c k = default 0 (c !! k))
    by (intros k; unfold index; now destruct (c !! k)).
  rewrite !Hidx. repeat split.
  intros n Htot Hfree Hn. rewrite Htot, Hfree. simpl. f_equal.
  assert (Hr : Uint64.in_range n).
  { apply (collect_uint64 (Bufio.lines content) ∅ all_uint64_empty "MemFree").
    now rewrite <- Ec. }
  unfold Uint64.sub, Uint64.wrap. unfold Uint64.in_range in Hr.
  rewrite modulus_value in *. change (2 ^ 64) with 18446744073709551616.
  symmetry. apply Z.mod_unique with (q := -1); lia.
Qed.

Lemma free_only_underflow :
  host free_only_source "/proc/meminfo" = inr free_only_source /\
  ret_memStats (getMemStats (host free_only_source))
  = Some (derive free_only_collected) /\
  free_only_collected !! "MemTotal" = None /\
  free_only_collected !! "MemFree" = Some 200 /\
  derive free_only_collected !! "MemUsed" = Some (2 ^ 64 - 200).
Proof.
  assert (H1 : host free_only_source "/proc/meminfo" = inr free_only_source)
    by reflexivity.
  assert (H2 : ret_memStats (getMemStats (host free_only_source))
               = Some (derive free_only_collected)) by reflexivity.
  assert (H3 : free_only_collected !! "MemTotal" = None)
    by (vm_compute; reflexivity).
  assert (H4 : free_only_collected !! "MemFree" = Some 200)
    by (vm_compute; reflexivity).
  split; [exact H1 |]. split; [exact H2 |]. split; [exact H3 |].
  split; [exact H4 |].
  destruct (absent_inputs_read_as_zero (host free_only_source) free_only_source
              (derive free_only_collected) H1 H2) as (_ & _ & _ & H).
  apply (H 200 H3 H4). lia.
Defined.

(** C6. On the source with the lines MemTotal: 1000 kB and MemFree: 200 kB
    the returned mapping has MemTotal=1000, MemFree=200 and MemUsed=800; on
    the source with SwapTotal: 500 kB and SwapFree: 100 kB it has
    SwapUsed=400; on the source with MemFree: 200 kB, Buffers: 50 kB and
    Cached: 30 kB it has RealFree=280. *)
Theorem documented_examples :
  (exists m, getMemStats (host mem_source) = mkOutcome (Some m) None [] /\
             m !! "MemTotal" = Some 1000 /\ m !! "MemFree" = Some 200 /\
             m !! "MemUsed" = Some 800) /\
  (exists m, getMemStats (host swap_source) = mkOutcome (Some m) None [] /\
             m !! "SwapUsed" = Some 400) /\
  (exists m, getMemStats (host realfree_source) = mkOutcome (Some m) None [] /\
             m !! "RealFree" = Some 280).
Proof.
  repeat split; eexists; (split; [reflexivity |]); vm_compute; repeat split.
Qed.






(** C7. A line whose field name is not one of the recognised names leaves
    the state of the loop as it was, so the outcome is the outcome of the
    source without that line: the line puts no entry under any key. *)
Theorem unrecognized_field_ignored (fs : filesystem) (content : string)
        (l1 l2 : list string) (line : string) :
  fs "/proc/meminfo" = inr content ->
  Bufio.lines content = l1 ++ line :: l2 ->
  ~ In (field_of line) field_names ->
  (forall st, loop_body st line = st) /\
  getMemStats fs
  = mkOutcome (Some (derive (memStats (scan_loop init (l1 ++ l2))))) None
              (printed (scan_loop init (l1 ++ l2))).
Proof.
  intros Hfs Hls Hf.
  assert (Hskip : forall st, loop_body st line = st)
    by (intros st; apply loop_body_unmatched; now apply unrecognized_field_unmatched).
  split; [exact Hskip |].
  unfold getMemStats. rewrite Hfs, Hls.
  assert (E : scan_loop init (l1 ++ line :: l2) = scan_loop init (l1 ++ l2)).
  { rewrite !scan_loop_app.
    change (scan_loop (scan_loop init l1) (line :: l2))
      with (scan_loop (loop_body (scan_loop init l1) line) l2).
    now rewrite Hskip. }
  now rewrite E.
Qed.

Lemma vmalloc_line_left_out :
  host sample_source "/proc/meminfo" = inr sample_source /\
  Bufio.lines sample_source
  = ["MemTotal:       16316412 kB"; "MemFree:         2158924 kB";
     "Buffers:          712344 kB"; "Cached:          6607552 kB"]
    ++ "VmallocTotal: 999 kB"
    :: ["SwapTotal:       2097148 kB"; "SwapFree:        2097148 kB"] /\
  ~ In (field_of "VmallocTotal: 999 kB") field_names /\
  getMemStats (host sample_source)
  = mkOutcome
      (Some (derive (memStats (scan_loop init
         (["MemTotal:       16316412 kB"; "MemFree:         2158924 kB";
           "Buffers:          712344 kB"; "Cached:          6607552 kB"]
          ++ ["SwapTotal:       2097148 kB"; "SwapFree:        2097148 kB"])))))
      None
      (printed (scan_loop init
         (["MemTotal:       16316412 kB"; "MemFree:         2158924 kB";
           "Buffers:          712344 kB"; "Cached:          6607552 kB"]
          ++ ["SwapTotal:       2097148 kB"; "SwapFree:        2097148 kB"]))).
Proof.
  assert (H1 : host sample_source "/proc/meminfo" = inr sample_source)
    by reflexivity.
  assert (H2 : Bufio.lines sample_source
    = ["MemTotal:       16316412 kB"; "MemFree:         2158924 kB";
       "Buffers:          712344 kB"; "Cached:          6607552 kB"]
      ++ "VmallocTotal: 999 kB"
      :: ["SwapTotal:       2097148 kB"; "SwapFree:        2097148 kB"])
    by (vm_compute; reflexivity).
  assert (H3 : ~ In (field_of "VmallocTotal: 999 kB") field_names).
  { vm_compute. intros H.
    repeat (destruct H as [H | H]; [discriminate H |]). exact H. }
  split; [exact H1 |]. split; [exact H2 |]. split; [exact H3 |].
  exact (proj2 (unrecognized_field_ignored (host sample_source) sample_source
                  _ _ _ H1 H2 H3)).
Defined.



(** C10. On a line the pattern finds, the second group is a nonempty run of
    decimal digits; ParseUint fails on it exactly when its number exceeds
    2^64 - 1, and then the line is skipped with a range error printed; when
    the number fits, the parse succeeds and the loop stores the number
    under the first group. *)
Theorem parse_failure_only_on_overflow (line : string) (stat : list string) :
  FindStringSubmatch re 2 line = Some stat ->
  let key := nth 1 stat EmptyString in
  let d := nth 2 stat EmptyString in
  d <> EmptyString /\
  all is_digit d = true /\
  (snd (ParseUint10_64 d) <> None <-> Uint64.maxUint64 < decimal d) /\
  (decimal d <= Uint64.maxUint64 ->
   ParseUint10_64 d = (decimal d, None) /\
   forall st, loop_body st line
              = mkState (<[key := decimal d]> (memStats st)) (printed st)) /\
  (Uint64.maxUint64 < decimal d ->
   forall st, loop_body st line
              = mkState (memStats st) (printed st ++ [rangeError d])).
Proof.
  rewrite FindStringSubmatch_re. intros Hm.
  destruct (match_line_length _ _ Hm) as (w & n & d & ->). simpl.
  assert (Hs : recognized_shape line n d) by (apply match_line_shape; eauto).
  destruct (shape_digits _ _ _ Hs) as [Hd Hne].
  pose proof (ParseUint_digits d Hd Hne) as Hp.
  split; [exact Hne |]. split; [exact Hd |].
  destruct (Z.leb_spec (decimal d) Uint64.maxUint64) as [Hfit | Hover].
  - split; [| split].
    + rewrite Hp. simpl. split; [congruence | lia].
    + intros _. split; [exact Hp |]. intros st.
      rewrite (loop_body_matched st line w n d Hm).
      destruct (Z.leb_spec (decimal d) Uint64.maxUint64); [reflexivity | lia].
    + lia.
  - split; [| split].
    + rewrite Hp. simpl. split; [intros _; exact Hover | discriminate].
    + lia.
    + intros _ st. rewrite (loop_body_matched st line w n d Hm).
      destruct (Z.leb_spec (decimal d) Uint64.maxUint64); [lia | reflexivity].
Qed.

Lemma max_value_line_stored :
  FindStringSubmatch re 2 "Cached: 18446744073709551615 kB"
  = Some ["Cached: 18446744073709551615"; "Cached"; "18446744073709551615"] /\
  ParseUint10_64 "18446744073709551615" = (18446744073709551615, None) /\
  forall st, loop_body st "Cached: 18446744073709551615 kB"
             = mkState (<["Cached" := 18446744073709551615]> (memStats st))
                       (printed st).
Proof.
  assert (H : FindStringSubmatch re 2 "Cached: 18446744073709551615 kB"
              = Some ["Cached: 18446744073709551615"; "Cached";
                      "18446744073709551615"])
    by (vm_compute; reflexivity).
  split; [exact H |].
  destruct (parse_failure_only_on_overflow _ _ H) as (_ & _ & _ & Hfit & _).
  apply Hfit. vm_compute. discriminate.
Defined.

(** * Further properties of getMemStats *)

(** ** The mapping as a function of the lines *)

Section MappingFacts.

Lemma collect_entries (ls : list string) :
  forall m, collect m ls = list_to_map (reverse (entries ls)) ∪ m.
Proof.
  induction ls as [|l ls IH]; intros m.
  - unfold entries. simpl. now rewrite (left_id ∅ (∪)).
  - rewrite collect_cons, IH. unfold entries. simpl omap.
    destruct (entry_of l) as [[k v]|]; [| reflexivity].
    rewrite reverse_cons, list_to_map_app.
    rewrite <- (assoc_L (∪)). f_equal.
    rewrite insert_union_singleton_l. f_equal.
Qed.

Lemma collect_is_Some (k : string) (ls : list string) :
  forall m, is_Some (m !! k) -> is_Some (collect m ls !! k).
Proof.
  induction ls as [|l ls IH]; intros m Hm; [exact Hm |].
  rewrite collect_cons. apply IH.
  destruct (entry_of l) as [[k' v']|]; [| exact Hm].
  destruct (decide (k' = k)) as [-> | Hne].
  - rewrite lookup_insert_eq. eauto.
  - now rewrite lookup_insert_ne.
Qed.

Lemma collect_stored (k : string) (ls : list string) :
  (exists l v, In l ls /\ entry_of l = Some (k, v)) ->
  forall m, is_Some (collect m ls !! k).
Proof.
  induction ls as [|l0 ls IH]; intros (l & v & Hin & E) m; [destruct Hin |].
  rewrite collect_cons. destruct Hin as [-> | Hin].
  - rewrite E. apply collect_is_Some. rewrite lookup_insert_eq. eauto.
  - apply IH. eauto.
Qed.

Lemma collect_nothing (ls : list string) :
  (forall l, In l ls -> entry_of l = None) -> forall m, collect m ls = m.
Proof.
  induction ls as [|l ls IH]; intros Hno m; [reflexivity |].
  rewrite collect_cons, (Hno l) by now left.
  apply IH. intros l' Hl'. apply Hno. now right.
Qed.

Lemma derive_uint64 (m : gmap string Z) : all_uint64 m -> all_uint64 (derive m).
Proof.
  intros Hm k v. unfold derive.
  repeat (rewrite lookup_insert; case_decide;
          [intros [= <-]; apply wrap_in_range |]).
  apply Hm.
Qed.

End MappingFacts.

Section OutcomeFacts.

Lemma NoDup_all_names : NoDup all_names.
Proof. apply (bool_decide_unpack _). vm_compute. exact I. Qed.

Lemma index_uint64 (m : gmap string Z) (k : string) :
  all_uint64 m -> Uint64.in_range (index m k).
Proof.
  intros Hm. unfold index. destruct (m !! k) as [v|] eqn:E.
  - now apply (Hm k).
  - unfold Uint64.in_range. rewrite modulus_value. lia.
Qed.

Lemma returned_uint64 (fs : filesystem) (m : gmap string Z) :
  ret_memStats (getMemStats fs) = Some m -> all_uint64 m.
Proof.
  intros Hm. destruct (getMemStats_Some fs m Hm) as (content & _ & ->).
  apply derive_uint64, collect_uint64, all_uint64_empty.
Qed.

Lemma printed_scan_loop (ls : list string) :
  forall st, printed (scan_loop st ls) = printed st ++ omap diagnostic_of ls.
Proof.
  unfold scan_loop. induction ls as [|l ls IH]; intros st; simpl.
  - now rewrite app_nil_r.
  - rewrite IH. unfold loop_body, diagnostic_of.
    destruct (FindStringSubmatch re 2 l) as [stat|]; [| reflexivity].
    destruct (ParseUint10_64 (nth 2 stat EmptyString)) as [value [err|]]; simpl.
    + now rewrite <- app_assoc.
    + reflexivity.
Qed.

(** The diagnostic of a line: the range error of a recognised line whose
    number does not fit. *)
Lemma diagnostic_of_Some (line : string) (e : NumError) :
  diagnostic_of line = Some e <->
  exists k d, recognized_shape line k d /\ Uint64.maxUint64 < decimal d /\
              e = rangeError d.
Proof.
  unfold diagnostic_of. rewrite FindStringSubmatch_re. split.
  - destruct (match_line line) as [stat|] eqn:Hm; [| discriminate].
    destruct (match_line_length _ _ Hm) as (w & n & d & ->). simpl nth.
    assert (Hs : recognized_shape line n d) by (apply match_line_shape; eauto).
    destruct (shape_digits _ _ _ Hs) as [Hd Hne].
    rewrite (ParseUint_digits d Hd Hne).
    destruct (Z.leb_spec (decimal d) Uint64.maxUint64); [discriminate |].
    intros [= <-]. eauto.
  - intros (k & d & Hs & Hover & ->).
    destruct (shape_digits _ _ _ Hs) as [Hd Hne].
    apply match_line_shape in Hs as [w ->]. simpl nth.
    rewrite (ParseUint_digits d Hd Hne).
    destruct (Z.leb_spec (decimal d) Uint64.maxUint64); [lia | reflexivity].
Qed.

End OutcomeFacts.

(** X1. Every key of a returned mapping is one of the fifteen field names
    or one of the three derived keys, so the mapping has at least three and
    at most eighteen entries. *)
Theorem keys_are_known (fs : filesystem) (m : gmap string Z) :
  ret_memStats (getMemStats fs) = Some m ->
  (forall k, is_Some (m !! k) -> In k all_names) /\
  (3 <= size m <= 18)%nat.
Proof.
  intros Hm. destruct (getMemStats_Some fs m Hm) as (content & _ & ->).
  set (c := collect ∅ (Bufio.lines content)).
  assert (Hkeys : forall k, is_Some (derive c !! k) -> In k all_names).
  { intros k Hk. unfold all_names. apply in_or_app.
    destruct (in_dec string_dec k derived_names) as [Hd | Hd]; [now right | left].
    rewrite derive_other in Hk by exact Hd.
    destruct (collect_keys (Bufio.lines content) ∅ k) as [H | H].
    - intros E. fold c in E. rewrite E in Hk. now destruct Hk.
    - now rewrite lookup_empty in H.
    - exact H. }
  split; [exact Hkeys |].
  rewrite <- (size_dom (D := gset string)). split.
  - transitivity (size (list_to_set derived_names : gset string)).
    + now rewrite size_list_to_set
        by (apply (bool_decide_unpack _); vm_compute; exact I).
    + apply subseteq_size. intros k Hk. apply elem_of_list_to_set in Hk.
      apply elem_of_dom. apply list_elem_of_In in Hk.
      unfold derived_names in Hk. simpl in Hk.
      destruct Hk as [<- | [<- | [<- | []]]].
      * rewrite derive_MemUsed. eauto.
      * rewrite derive_SwapUsed. eauto.
      * rewrite derive_RealFree. eauto.
  - transitivity (size (list_to_set all_names : gset string)).
    + apply subseteq_size. intros k Hk. apply elem_of_dom in Hk.
      apply elem_of_list_to_set, list_elem_of_In. now apply Hkeys.
    + now rewrite size_list_to_set by apply NoDup_all_names.
Qed.

Lemma sample_keys_are_known :
  ret_memStats (getMemStats (host sample_source)) = Some sample_result /\
  (forall k, is_Some (sample_result !! k) -> In k all_names) /\
  (3 <= size sample_result <= 18)%nat.
Proof.
  assert (H : ret_memStats (getMemStats (host sample_source)) = Some sample_result)
    by reflexivity.
  split; [exact H |].
  exact (keys_are_known (host sample_source) sample_result H).
Defined.

(** X2. Every value of a returned mapping lies between 0 and 2^64 - 1: the
    numbers the scan stores come out of ParseUint and the derived ones are
    reduced modulo 2^64. *)
Theorem values_are_uint64 (fs : filesystem) (m : gmap string Z)
        (k : string) (v : Z) :
  ret_memStats (getMemStats fs) = Some m ->
  m !! k = Some v ->
  0 <= v < 2 ^ 64.
Proof. intros Hm Hk. exact (returned_uint64 fs m Hm k v Hk). Qed.

Lemma free_only_value_is_uint64 :
  ret_memStats (getMemStats (host free_only_source))
  = Some (derive free_only_collected) /\
  derive free_only_collected !! "MemUsed" = Some 18446744073709551416 /\
  0 <= 18446744073709551416 < 2 ^ 64.
Proof.
  assert (H1 : ret_memStats (getMemStats (host free_only_source))
               = Some (derive free_only_collected)) by reflexivity.
  assert (H2 : derive free_only_collected !! "MemUsed"
               = Some 18446744073709551416) by (vm_compute; reflexivity).
  split; [exact H1 |]. split; [exact H2 |].
  exact (values_are_uint64 (host free_only_source) _ _ _ H1 H2).
Defined.

(** X3. A key other than the three derived ones is absent from the returned
    mapping exactly when no delivered line stores it: nothing is filled in
    with zero. *)
Theorem key_absent_iff_never_stored (fs : filesystem) (content : string)
        (m : gmap string Z) (k : string) :
  fs "/proc/meminfo" = inr content ->
  ret_memStats (getMemStats fs) = Some m ->
  ~ In k derived_names ->
  (m !! k = None <->
   forall l v, In l (Bufio.lines content) -> entry_of l <> Some (k, v)).
Proof.
  intros Hfs Hm Hd.
  rewrite (getMemStats_opened fs content Hfs) in Hm. simpl in Hm.
  injection Hm as <-. rewrite derive_other by exact Hd. split.
  - intros Hnone l v Hin E.
    destruct (collect_stored k (Bufio.lines content)
                (ex_intro _ l (ex_intro _ v (conj Hin E))) ∅) as [x Hx].
    congruence.
  - intros Hno. rewrite collect_untouched by exact Hno. apply lookup_empty.
Qed.

Lemma free_only_has_no_total :
  host free_only_source "/proc/meminfo" = inr free_only_source /\
  ret_memStats (getMemStats (host free_only_source))
  = Some (derive free_only_collected) /\
  ~ In "MemTotal" derived_names /\
  (forall l v, In l (Bufio.lines free_only_source) ->
               entry_of l <> Some ("MemTotal", v)) /\
  derive free_only_collected !! "MemTotal" = None.
Proof.
  assert (H1 : host free_only_source "/proc/meminfo" = inr free_only_source)
    by reflexivity.
  assert (H2 : ret_memStats (getMemStats (host free_only_source))
               = Some (derive free_only_collected)) by reflexivity.
  assert (H3 : ~ In "MemTotal" derived_names).
  { intros [H | [H | [H | []]]]; discriminate H. }
  assert (H4 : forall l v, In l (Bufio.lines free_only_source) ->
                           entry_of l <> Some ("MemTotal", v)).
  { intros l v Hin. vm_compute in Hin. destruct Hin as [<- | []].
    vm_compute. discriminate. }
  split; [exact H1 |]. split; [exact H2 |]. split; [exact H3 |].
  split; [exact H4 |].
  exact (proj2 (key_absent_iff_never_stored (host free_only_source)
                  free_only_source _ "MemTotal" H1 H2 H3) H4).
Defined.

(** X4. The mapping of a source is the mapping of its later lines laid over
    the mapping of its earlier lines: where both parts store a key, the
    later part decides, and the derived keys are computed from the union. *)
Theorem later_lines_override (fs : filesystem) (content : string)
        (l1 l2 : list string) :
  fs "/proc/meminfo" = inr content ->
  Bufio.lines content = l1 ++ l2 ->
  ret_memStats (getMemStats fs)
  = Some (derive (memStats (scan_loop init l2) ∪ memStats (scan_loop init l1))).
Proof.
  intros Hfs Hls. rewrite (getMemStats_opened fs content Hfs), Hls. simpl.
  rewrite !scan_loop_memStats, collect_app. simpl. do 2 f_equal.
  rewrite (collect_entries l2 (collect ∅ l1)), (collect_entries l2 ∅).
  now rewrite (right_id_L ∅ (∪)).
Qed.

Lemma repeated_source_later_half_overrides :
  host repeated_source "/proc/meminfo" = inr repeated_source /\
  Bufio.lines repeated_source
  = ["MemTotal: 1 kB"; "MemFree: 5 kB"] ++ ["MemTotal: 2 kB"; "MemFree: 7 kB"] /\
  ret_memStats (getMemStats (host repeated_source))
  = Some (derive (memStats (scan_loop init ["MemTotal: 2 kB"; "MemFree: 7 kB"])
                  ∪ memStats (scan_loop init ["MemTotal: 1 kB"; "MemFree: 5 kB"]))).
Proof.
  assert (H1 : host repeated_source "/proc/meminfo" = inr repeated_source)
    by reflexivity.
  assert (H2 : Bufio.lines repeated_source
               = ["MemTotal: 1 kB"; "MemFree: 5 kB"]
                 ++ ["MemTotal: 2 kB"; "MemFree: 7 kB"])
    by (vm_compute; reflexivity).
  split; [exact H1 |]. split; [exact H2 |].
  exact (later_lines_override (host repeated_source) repeated_source _ _ H1 H2).
Defined.

(** X5. When no field is stored twice, the order of the lines does not
    matter: two sources whose delivered lines are permutations of each other
    give the same mapping. *)
Theorem line_order_irrelevant (fs1 fs2 : filesystem) (c1 c2 : string) :
  fs1 "/proc/meminfo" = inr c1 ->
  fs2 "/proc/meminfo" = inr c2 ->
  Bufio.lines c1 ≡ₚ Bufio.lines c2 ->
  NoDup (entries (Bufio.lines c1)).*1 ->
  ret_memStats (getMemStats fs1) = ret_memStats (getMemStats fs2).
Proof.
  intros H1 H2 Hp Hnd.
  rewrite (getMemStats_opened fs1 c1 H1), (getMemStats_opened fs2 c2 H2). simpl.
  do 2 f_equal. rewrite !collect_entries. f_equal.
  apply list_to_map_proper.
  - now rewrite fmap_reverse, reverse_Permutation.
  - rewrite !reverse_Permutation. unfold entries. now rewrite Hp.
Qed.

Lemma swapped_mem_source_same_mapping :
  host mem_source "/proc/meminfo" = inr mem_source /\
  host swapped_mem_source "/proc/meminfo" = inr swapped_mem_source /\
  Bufio.lines mem_source ≡ₚ Bufio.lines swapped_mem_source /\
  NoDup (entries (Bufio.lines mem_source)).*1 /\
  ret_memStats (getMemStats (host mem_source))
  = ret_memStats (getMemStats (host swapped_mem_source)).
Proof.
  assert (H1 : host mem_source "/proc/meminfo" = inr mem_source) by reflexivity.
  assert (H2 : host swapped_mem_source "/proc/meminfo" = inr swapped_mem_source)
    by reflexivity.
  assert (H3 : Bufio.lines mem_source ≡ₚ Bufio.lines swapped_mem_source).
  { assert (E1 : Bufio.lines mem_source
                 = ["MemTotal: 1000 kB"; "MemFree: 200 kB"])
      by (vm_compute; reflexivity).
    assert (E2 : Bufio.lines swapped_mem_source
                 = ["MemFree: 200 kB"; "MemTotal: 1000 kB"])
      by (vm_compute; reflexivity).
    rewrite E1, E2. apply perm_swap. }
  assert (H4 : NoDup (entries (Bufio.lines mem_source)).*1)
    by (apply (bool_decide_unpack _); vm_compute; exact I).
  split; [exact H1 |]. split; [exact H2 |]. split; [exact H3 |].
  split; [exact H4 |].
  exact (line_order_irrelevant (host mem_source) (host swapped_mem_source)
           mem_source swapped_mem_source H1 H2 H3 H4).
Defined.

(** X6. With sane inputs the derived values are the exact ones: MemUsed is
    MemTotal - MemFree when MemFree does not exceed MemTotal, likewise for
    the swap, and RealFree is the plain sum when the sum stays below 2^64. *)
Theorem derived_values_exact (fs : filesystem) (m : gmap string Z) :
  ret_memStats (getMemStats fs) = Some m ->
  (index m "MemFree" <= index m "MemTotal" ->
   m !! "MemUsed" = Some (index m "MemTotal" - index m "MemFree")) /\
  (index m "SwapFree" <= index m "SwapTotal" ->
   m !! "SwapUsed" = Some (index m "SwapTotal" - index m "SwapFree")) /\
  (index m "MemFree" + index m "Buffers" + index m "Cached" < 2 ^ 64 ->
   m !! "RealFree"
   = Some (index m "MemFree" + index m "Buffers" + index m "Cached")).
Proof.
  intros Hm. pose proof (returned_uint64 fs m Hm) as Hr.
  pose proof (index_uint64 m "MemTotal" Hr) as Ht.
  pose proof (index_uint64 m "MemFree" Hr) as Hf.
  pose proof (index_uint64 m "SwapTotal" Hr) as Hst.
  pose proof (index_uint64 m "SwapFree" Hr) as Hsf.
  pose proof (index_uint64 m "Buffers" Hr) as Hb.
  pose proof (index_uint64 m "Cached" Hr) as Hc.
  destruct (getMemStats_Some fs m Hm) as (content & _ & E).
  set (c := collect ∅ (Bufio.lines content)) in E.
  assert (Hi : forall k, ~ In k derived_names -> index m k = index c k)
    by (intros k Hk; rewrite E; now apply index_derive).
  assert (Hnd : forall k, In k ["MemTotal"; "MemFree"; "SwapTotal"; "SwapFree";
                                "Buffers"; "Cached"] -> ~ In k derived_names).
  { intros k Hk Hd. apply derived_not_field in Hd. apply Hd.
    unfold field_names. simpl in *. tauto. }
  assert (Eu : m !! "MemUsed"
               = Some (Uint64.sub (index m "MemTotal") (index m "MemFree"))).
  { rewrite !Hi by (apply Hnd; simpl; tauto). rewrite E. apply derive_MemUsed. }
  assert (Es : m !! "SwapUsed"
               = Some (Uint64.sub (index m "SwapTotal") (index m "SwapFree"))).
  { rewrite !Hi by (apply Hnd; simpl; tauto). rewrite E. apply derive_SwapUsed. }
  assert (Er : m !! "RealFree"
               = Some (Uint64.add (Uint64.add (index m "MemFree") (index m "Buffers"))
                                  (index m "Cached"))).
  { rewrite !Hi by (apply Hnd; simpl; tauto). rewrite E. apply derive_RealFree. }
  unfold Uint64.in_range in *. rewrite modulus_value in *.
  change (2 ^ 64) with 18446744073709551616.
  split; [| split].
  - intros Hle. rewrite Eu. f_equal. apply wrap_small.
    unfold Uint64.in_range. rewrite modulus_value. lia.
  - intros Hle. rewrite Es. f_equal. apply wrap_small.
    unfold Uint64.in_range. rewrite modulus_value. lia.
  - intros Hlt. rewrite Er. f_equal. unfold Uint64.add.
    rewrite (wrap_small (index m "MemFree" + index m "Buffers"))
      by (unfold Uint64.in_range; rewrite modulus_value; lia).
    apply wrap_small. unfold Uint64.in_range. rewrite modulus_value. lia.
Qed.

Lemma sample_derived_values_exact :
  ret_memStats (getMemStats (host sample_source)) = Some sample_result /\
  sample_result !! "MemUsed" = Some (16316412 - 2158924) /\
  sample_result !! "SwapUsed" = Some (2097148 - 2097148) /\
  sample_result !! "RealFree" = Some (2158924 + 712344 + 6607552).
Proof.
  assert (H : ret_memStats (getMemStats (host sample_source)) = Some sample_result)
    by reflexivity.
  split; [exact H |].
  destruct (derived_values_exact (host sample_source) sample_result H)
    as (Hu & Hs & Hr).
  split; [| split].
  - apply Hu. vm_compute. discriminate.
  - apply Hs. vm_compute. discriminate.
  - apply Hr. vm_compute. reflexivity.
Defined.

(** X7. A source without a single line that stores an entry, the empty
    source among them, still succeeds: the mapping is MemUsed = 0,
    SwapUsed = 0, RealFree = 0 and nothing else. *)
Theorem no_valid_line_gives_zeros (fs : filesystem) (content : string) :
  fs "/proc/meminfo" = inr content ->
  (forall l, In l (Bufio.lines content) -> entry_of l = None) ->
  ret_memStats (getMemStats fs) = Some zero_stats /\
  ret_err (getMemStats fs) = None.
Proof.
  intros Hfs Hno. rewrite (getMemStats_opened fs content Hfs). simpl.
  rewrite (collect_nothing _ Hno). split; reflexivity.
Qed.

Lemma empty_source_gives_zeros :
  host EmptyString "/proc/meminfo" = inr EmptyString /\
  (forall l, In l (Bufio.lines EmptyString) -> entry_of l = None) /\
  ret_memStats (getMemStats (host EmptyString)) = Some zero_stats /\
  ret_err (getMemStats (host EmptyString)) = None.
Proof.
  assert (H1 : host EmptyString "/proc/meminfo" = inr EmptyString) by reflexivity.
  assert (H2 : forall l, In l (Bufio.lines EmptyString) -> entry_of l = None)
    by (intros l []).
  split; [exact H1 |]. split; [exact H2 |].
  exact (no_valid_line_gives_zeros (host EmptyString) EmptyString H1 H2).
Defined.

(** X8. What a call prints: exactly one range error of ParseUint for every
    delivered line of the recognised shape whose number exceeds 2^64 - 1,
    and nothing else; a syntax error is never printed. *)
Theorem only_range_errors_printed (fs : filesystem) (content : string)
        (e : NumError) :
  fs "/proc/meminfo" = inr content ->
  stdout (getMemStats fs) = omap diagnostic_of (Bufio.lines content) /\
  (In e (stdout (getMemStats fs)) <->
   exists line k d,
     In line (Bufio.lines content) /\ recognized_shape line k d /\
     Uint64.maxUint64 < decimal d /\ e = rangeError d).
Proof.
  intros Hfs. rewrite (getMemStats_opened fs content Hfs). simpl.
  rewrite printed_scan_loop. simpl. split; [reflexivity |].
  rewrite <- list_elem_of_In, list_elem_of_omap. split.
  - intros (line & Hin & Hd). apply diagnostic_of_Some in Hd as (k & d & Hs & Ho & ->).
    exists line, k, d. rewrite <- list_elem_of_In. auto.
  - intros (line & k & d & Hin & Hs & Ho & ->). exists line.
    rewrite list_elem_of_In. split; [exact Hin |].
    apply diagnostic_of_Some. eauto.
Qed.

Lemma overflowing_source_prints_range_error :
  host overflowing_source "/proc/meminfo" = inr overflowing_source /\
  In (rangeError "18446744073709551616")
     (stdout (getMemStats (host overflowing_source))).
Proof.
  assert (H1 : host overflowing_source "/proc/meminfo" = inr overflowing_source)
    by reflexivity.
  split; [exact H1 |].
  apply (proj2 (only_range_errors_printed (host overflowing_source)
                  overflowing_source (rangeError "18446744073709551616") H1)).
  exists overflowing_line, "MemTotal", "18446744073709551616".
  split; [vm_compute; tauto |]. split.
  - split; [now left |]. exists " ", EmptyString. repeat split. discriminate.
  - split; [vm_compute |]; reflexivity.
Defined.

(** ** The scanner on sources built from lines *)

Section JoinFacts.
Import Bufio.

Lemma join_lines_cons (eol l : string) (ls : list string) :
  join_lines eol (l :: ls) = l +:+ eol +:+ join_lines eol ls.
Proof. reflexivity. Qed.

Lemma join_lines_app (eol : string) (l1 l2 : list string) :
  join_lines eol (l1 ++ l2) = join_lines eol l1 +:+ join_lines eol l2.
Proof.
  induction l1 as [|l l1 IH]; simpl; [reflexivity |].
  now rewrite IH, !append_assoc.
Qed.



Lemma length_dropCR (s : string) : (String.length (dropCR s) <= String.length s)%nat.
Proof.
  induction s as [|x s IH]; [simpl; lia |].
  destruct s as [|y s].
  - simpl. destruct (Ascii.eqb x cr); simpl; lia.
  - change (dropCR (String x (String y s))) with (String x (dropCR (String y s))).
    simpl String.length in *. lia.
Qed.

Lemma IndexByte_dropCR (s : string) (c : ascii) :
  IndexByte s c = None -> IndexByte (dropCR s) c = None.
Proof.
  induction s as [|x s IH]; [reflexivity |].
  destruct s as [|y s].
  - simpl. destruct (Ascii.eqb x cr); [reflexivity |].
    simpl. now destruct (Ascii.eqb x c).
  - change (dropCR (String x (String y s))) with (String x (dropCR (String y s))).
    intros H.
    change (IndexByte (String x (String y s)) c)
      with (if Ascii.eqb x c then Some O
            else match IndexByte (String y s) c with
                 | Some i => Some (S i)
                 | None => None
                 end) in H.
    change (IndexByte (String x (dropCR (String y s))) c)
      with (if Ascii.eqb x c then Some O
            else match IndexByte (dropCR (String y s)) c with
                 | Some i => Some (S i)
                 | None => None
                 end).
    destruct (Ascii.eqb x c); [discriminate |].
    destruct (IndexByte (String y s) c); [discriminate |].
    now rewrite IH.
Qed.

Lemma IndexByte_take_before (s : string) (c : ascii) (i : nat) :
  IndexByte s c = Some i -> IndexByte (take i s) c = None.
Proof.
  revert i. induction s as [|x s IH]; intros i; simpl; [discriminate |].
  destruct (Ascii.eqb x c) eqn:Ex.
  - intros [= <-]. reflexivity.
  - destruct (IndexByte s c) as [j|]; [| discriminate].
    intros [= <-]. simpl. rewrite Ex. now rewrite (IH j).
Qed.

Lemma IndexByte_take_None (n : nat) (s : string) (c : ascii) :
  IndexByte s c = None -> IndexByte (take n s) c = None.
Proof.
  revert s. induction n as [|n IH]; intros [|x s]; simpl; try reflexivity.
  destruct (Ascii.eqb x c); [discriminate |].
  destruct (IndexByte s c) eqn:E; [discriminate |]. intros _.
  now rewrite (IH s E).
Qed.

(** A token has no newline in it and is shorter than the buffer. *)
Lemma Scan_token (rest tok rest' : string) :
  Scan rest = Some (tok, rest') -> scannable 0 tok.
Proof.
  unfold Scan, ScanLines, scannable.
  set (buf := take MaxScanTokenSize rest).
  assert (Hbuf : (String.length buf <= MaxScanTokenSize)%nat)
    by (unfold buf; rewrite length_take; lia).
  destruct (Nat.ltb_spec (String.length rest) MaxScanTokenSize) as [Hlt | Hge].
  - assert (Ebuf : buf = rest) by (apply take_all; lia).
    destruct (andb true (Nat.eqb (String.length buf) 0)); [discriminate |].
    destruct (IndexByte buf newline) as [i|] eqn:Ei.
    + intros [= <- _]. pose proof (IndexByte_lt _ _ _ Ei) as Hi. split.
      * apply IndexByte_dropCR. now apply IndexByte_take_before.
      * pose proof (length_dropCR (take i buf)). rewrite length_take in *. lia.
    + intros [= <- _]. split.
      * now apply IndexByte_dropCR.
      * pose proof (length_dropCR buf). rewrite Ebuf in *. lia.
  - cbn [andb]. destruct (IndexByte buf newline) as [i|] eqn:Ei; [| discriminate].
    intros [= <- _]. pose proof (IndexByte_lt _ _ _ Ei) as Hi. split.
    + apply IndexByte_dropCR. now apply IndexByte_take_before.
    + pose proof (length_dropCR (take i buf)). rewrite length_take in *. lia.
Qed.

Lemma scan_all_tokens (fuel : nat) :
  forall rest, Forall (scannable 0) (scan_all fuel rest).
Proof.
  induction fuel as [|fuel IH]; intros rest; simpl; [constructor |].
  destruct (Scan rest) as [[tok rest']|] eqn:Es; [| constructor].
  constructor; [now apply (Scan_token rest tok rest') | apply IH].
Qed.

(** Lines followed by newlines come back, each without its carriage
    return, and the scan goes on with what follows them. *)
Lemma lines_join (ls : list string) (rest : string) :
  Forall (scannable 0) ls ->
  lines (join_lines nl ls +:+ rest) = map dropCR ls ++ lines rest.
Proof.
  induction 1 as [|l ls [Hnl Hlen] _ IH]; [reflexivity |].
  rewrite join_lines_cons, !append_assoc.
  change (nl +:+ join_lines nl ls +:+ rest)
    with (String newline (join_lines nl ls +:+ rest)).
  rewrite lines_cons by (assumption || lia). simpl. now rewrite IH.
Qed.


Lemma map_dropCR_id (ls : list string) :
  Forall no_trailing_cr ls -> map dropCR ls = ls.
Proof. induction 1 as [|l ls Hl _ IH]; simpl; [reflexivity | now rewrite Hl, IH]. Qed.


End JoinFacts.

Ltac solve_scannable :=
  split; [reflexivity | apply Nat.ltb_lt; vm_compute; reflexivity].

Lemma host_meminfo (content : string) :
  host content "/proc/meminfo" = inr content.
Proof. reflexivity. Qed.

(** X9. For a source written as lines that each end in a newline, the
    outcome is that of the loop run over exactly these lines: the scanner
    gives back what was written. *)
Theorem outcome_of_joined_lines (fs : filesystem) (ls : list string) :
  fs "/proc/meminfo" = inr (join_lines nl ls) ->
  Forall (scannable 0) ls ->
  Forall no_trailing_cr ls ->
  Bufio.lines (join_lines nl ls) = ls /\
  getMemStats fs
  = mkOutcome (Some (derive (memStats (scan_loop init ls)))) None
              (printed (scan_loop init ls)).
Proof.
  intros Hfs Hs Hcr.
  assert (E : Bufio.lines (join_lines nl ls) = ls).
  { rewrite <- (append_nil_r (join_lines nl ls)), lines_join by exact Hs.
    rewrite lines_nil, app_nil_r. now apply map_dropCR_id. }
  split; [exact E |]. unfold getMemStats. now rewrite Hfs, E.
Qed.

Lemma mem_source_is_its_lines :
  host mem_source "/proc/meminfo"
  = inr (join_lines nl ["MemTotal: 1000 kB"; "MemFree: 200 kB"]) /\
  Forall (scannable 0) ["MemTotal: 1000 kB"; "MemFree: 200 kB"] /\
  Forall no_trailing_cr ["MemTotal: 1000 kB"; "MemFree: 200 kB"] /\
  Bufio.lines (join_lines nl ["MemTotal: 1000 kB"; "MemFree: 200 kB"])
  = ["MemTotal: 1000 kB"; "MemFree: 200 kB"].
Proof.
  assert (H1 : host mem_source "/proc/meminfo"
               = inr (join_lines nl ["MemTotal: 1000 kB"; "MemFree: 200 kB"]))
    by reflexivity.
  assert (H2 : Forall (scannable 0) ["MemTotal: 1000 kB"; "MemFree: 200 kB"]).
  { repeat (constructor; [solve_scannable |]). constructor. }
  assert (H3 : Forall no_trailing_cr ["MemTotal: 1000 kB"; "MemFree: 200 kB"])
    by (repeat (constructor; [reflexivity |]); constructor).
  split; [exact H1 |]. split; [exact H2 |]. split; [exact H3 |].
  exact (proj1 (outcome_of_joined_lines (host mem_source) _ H1 H2 H3)).
Defined.



(** X11. The newline after the last line is optional: a source whose last
    line is not terminated gives the same outcome as the source with the
    terminator. *)
Theorem final_newline_optional (fs1 fs2 : filesystem) (ls : list string)
        (a : string) :
  fs1 "/proc/meminfo" = inr (join_lines nl ls +:+ a) ->
  fs2 "/proc/meminfo" = inr (join_lines nl (ls ++ [a])) ->
  Forall (scannable 0) ls ->
  scannable 0 a ->
  a <> EmptyString ->
  getMemStats fs1 = getMemStats fs2.
Proof.
  intros H1 H2 Hs [Hnl Hlen] Hne. unfold getMemStats. rewrite H1, H2.
  rewrite lines_join by exact Hs.
  rewrite (lines_last a Hne Hnl) by lia.
  rewrite <- (append_nil_r (join_lines nl (ls ++ [a]))), lines_join.
  - now rewrite lines_nil, app_nil_r, map_app.
  - apply Forall_app. split; [exact Hs |].
    constructor; [split; assumption | constructor].
Qed.

Lemma unterminated_mem_source_same_outcome :
  host ("MemTotal: 1000 kB" +:+ nl +:+ "MemFree: 200 kB") "/proc/meminfo"
  = inr (join_lines nl ["MemTotal: 1000 kB"] +:+ "MemFree: 200 kB") /\
  host mem_source "/proc/meminfo"
  = inr (join_lines nl (["MemTotal: 1000 kB"] ++ ["MemFree: 200 kB"])) /\
  Forall (scannable 0) ["MemTotal: 1000 kB"] /\
  scannable 0 "MemFree: 200 kB" /\
  "MemFree: 200 kB" <> EmptyString /\
  getMemStats (host ("MemTotal: 1000 kB" +:+ nl +:+ "MemFree: 200 kB"))
  = getMemStats (host mem_source).
Proof.
  assert (H1 : host ("MemTotal: 1000 kB" +:+ nl +:+ "MemFree: 200 kB")
                    "/proc/meminfo"
               = inr (join_lines nl ["MemTotal: 1000 kB"] +:+ "MemFree: 200 kB"))
    by reflexivity.
  assert (H2 : host mem_source "/proc/meminfo"
               = inr (join_lines nl (["MemTotal: 1000 kB"] ++ ["MemFree: 200 kB"])))
    by reflexivity.
  assert (H3 : Forall (scannable 0) ["MemTotal: 1000 kB"]).
  { repeat (constructor; [solve_scannable |]). constructor. }
  assert (H4 : scannable 0 "MemFree: 200 kB").
  { solve_scannable. }
  assert (H5 : "MemFree: 200 kB" <> EmptyString) by discriminate.
  split; [exact H1 |]. split; [exact H2 |]. split; [exact H3 |].
  split; [exact H4 |]. split; [exact H5 |].
  exact (final_newline_optional _ _ _ _ H1 H2 H3 H4 H5).
Defined.

(** X12. A line that fills the 64 KiB buffer of the scanner ends the scan
    without an error: the outcome is that of the lines before it, and
    neither that line nor any line after it counts. *)
Theorem long_line_truncates_silently (fs : filesystem) (ls : list string)
        (a : string) :
  fs "/proc/meminfo" = inr (join_lines nl ls +:+ a) ->
  Forall (scannable 0) ls ->
  Bufio.IndexByte (Bufio.take Bufio.MaxScanTokenSize a) Bufio.newline = None ->
  (Bufio.MaxScanTokenSize <= String.length a)%nat ->
  ret_err (getMemStats fs) = None /\
  getMemStats fs = getMemStats (host (join_lines nl ls)).
Proof.
  intros Hfs Hs Hnl Hlen.
  assert (E1 : Bufio.lines (join_lines nl ls +:+ a) = map Bufio.dropCR ls).
  { rewrite lines_join by exact Hs.
    now rewrite (lines_too_long a Hnl Hlen), app_nil_r. }
  assert (E2 : Bufio.lines (join_lines nl ls) = map Bufio.dropCR ls).
  { rewrite <- (append_nil_r (join_lines nl ls)), lines_join by exact Hs.
    now rewrite lines_nil, app_nil_r. }
  unfold getMemStats. rewrite Hfs, host_meminfo, E1, E2.
  split; reflexivity.
Qed.

Lemma long_source_truncated :
  host long_source "/proc/meminfo"
  = inr (join_lines nl ["MemTotal: 1 kB"] +:+ long_rest) /\
  Forall (scannable 0) ["MemTotal: 1 kB"] /\
  Bufio.IndexByte (Bufio.take Bufio.MaxScanTokenSize long_rest) Bufio.newline
  = None /\
  (Bufio.MaxScanTokenSize <= String.length long_rest)%nat /\
  ret_err (getMemStats (host long_source)) = None /\
  getMemStats (host long_source)
  = getMemStats (host (join_lines nl ["MemTotal: 1 kB"])).
Proof.
  assert (H1 : host long_source "/proc/meminfo"
               = inr (join_lines nl ["MemTotal: 1 kB"] +:+ long_rest))
    by reflexivity.
  assert (H2 : Forall (scannable 0) ["MemTotal: 1 kB"]).
  { repeat (constructor; [solve_scannable |]). constructor. }
  assert (H3 : Bufio.IndexByte (Bufio.take Bufio.MaxScanTokenSize long_rest)
                               Bufio.newline = None)
    by (vm_compute; reflexivity).
  assert (H4 : (Bufio.MaxScanTokenSize <= String.length long_rest)%nat)
    by (apply Nat.leb_le; vm_compute; reflexivity).
  split; [exact H1 |]. split; [exact H2 |]. split; [exact H3 |].
  split; [exact H4 |].
  exact (long_line_truncates_silently (host long_source) _ _ H1 H2 H3 H4).
Defined.

(** X13. Every line handed to the loop body is free of newlines and shorter
    than the buffer of the scanner. *)
Theorem delivered_lines_bounded (content : string) :
  Forall (scannable 0) (Bufio.lines content).
Proof. apply scan_all_tokens. Qed.

(** ** ParseUint on arbitrary text *)

Section ParseFacts.

Lemma digitVal_other (c : ascii) :
  is_digit c = false ->
  digitVal c = None \/ exists d, digitVal c = Some d /\ 10 <= d.
Proof.
  unfold is_digit, digitVal. intros H. rewrite H.
  destruct ((97 <=? lower (code c)) && (lower (code c) <=? 122)) eqn:E.
  - right. eexists. split; [reflexivity |].
    apply andb_true_iff in E as [E _]. apply Z.leb_le in E. lia.
  - now left.
Qed.

(** The loop fails on every text with a byte that is not a digit. *)
Lemma parseLoop_other (s : string) :
  all is_digit s = false ->
  forall n, snd (parseLoop 10 (Uint64.maxUint64 / 10 + 1) Uint64.maxUint64 s n)
            <> None.
Proof.
  induction s as [|c s IH]; intros Hs n; [discriminate |].
  simpl in Hs. cbn [parseLoop].
  destruct (is_digit c) eqn:Hc.
  - destruct (digitVal_digit c Hc) as [-> Hd].
    destruct (10 <=? code c - 48); [discriminate |].
    destruct (Uint64.maxUint64 / 10 + 1 <=? n); [discriminate |].
    match goal with |- context [if ?b then _ else _] => destruct b end;
      [discriminate | now apply IH].
  - destruct (digitVal_other c Hc) as [-> | (d & -> & Hd)]; [discriminate |].
    destruct (Z.leb_spec 10 d); [discriminate | lia].
Qed.

End ParseFacts.

(** X14. ParseUint, as called by the loop, succeeds exactly on a nonempty
    text of decimal digits whose number is at most 2^64 - 1, and then
    returns that number: signs, spaces, letters and larger numbers are all
    refused. *)
Theorem ParseUint_accepts (s : string) :
  (snd (ParseUint10_64 s) = None <->
   s <> EmptyString /\ all is_digit s = true /\ decimal s <= Uint64.maxUint64) /\
  (snd (ParseUint10_64 s) = None -> fst (ParseUint10_64 s) = decimal s).
Proof.
  destruct s as [|c s]; [split; [split; [discriminate | tauto] | discriminate] |].
  destruct (all is_digit (String c s)) eqn:Hd.
  - rewrite (ParseUint_digits (String c s) Hd) by discriminate.
    destruct (Z.leb_spec (decimal (String c s)) Uint64.maxUint64); simpl.
    + split; [| reflexivity]. split; [intros _ | reflexivity].
      repeat split; [discriminate | assumption].
    + split; [| discriminate]. split; [discriminate |]. intros (_ & _ & H'). lia.
  - assert (Hf : snd (ParseUint10_64 (String c s)) <> None).
    { unfold ParseUint10_64.
      change (Uint64.sub (Uint64.wrap (Z.shiftl 1 64)) 1) with Uint64.maxUint64.
      pose proof (parseLoop_other (String c s) Hd 0) as Hp.
      destruct (parseLoop 10 (Uint64.maxUint64 / 10 + 1) Uint64.maxUint64
                          (String c s) 0) as [n [e|]]; [discriminate | now simpl in Hp]. }
    split; [| intros H; contradiction].
    split; [intros H; contradiction | intros (_ & H' & _); discriminate].
Qed.

(** X15. When the pattern finds a line, the result has exactly three parts,
    so the loop reads stat[1] and stat[2] within bounds: the matched text,
    which starts the line, then a field name, then the digits. *)
Theorem submatch_has_three_parts (line : string) (stat : list string) :
  FindStringSubmatch re 2 line = Some stat ->
  length stat = 3%nat /\
  In (nth 1 stat EmptyString) field_names /\
  exists ws rest,
    all is_space ws = true /\
    nth 0 stat EmptyString
    = nth 1 stat EmptyString +:+ ":" +:+ ws +:+ nth 2 stat EmptyString /\
    line = nth 0 stat EmptyString +:+ rest.
Proof.
  rewrite FindStringSubmatch_re. unfold match_line. intros Hm.
  destruct (first_field_Some _ _ _ Hm) as (n & t & d & rest & -> & Hin & Hl & Ht).
  destruct (numeric_tail_Some _ _ _ Ht) as (ws & Et & _ & Hws & _).
  simpl. split; [reflexivity |]. split; [exact Hin |].
  exists ws, rest. split; [exact Hws |]. split.
  - now rewrite Et.
  - now rewrite Hl, append_assoc.
Qed.

Lemma sample_submatch_has_three_parts :
  FindStringSubmatch re 2 "Cached: 18446744073709551615 kB"
  = Some ["Cached: 18446744073709551615"; "Cached"; "18446744073709551615"] /\
  length ["Cached: 18446744073709551615"; "Cached"; "18446744073709551615"]
  = 3%nat.
Proof.
  assert (H : FindStringSubmatch re 2 "Cached: 18446744073709551615 kB"
              = Some ["Cached: 18446744073709551615"; "Cached";
                      "18446744073709551615"])
    by (vm_compute; reflexivity).
  split; [exact H |].
  exact (proj1 (submatch_has_three_parts _ _ H)).
Defined.

Lemma plain_number_accepted :
  snd (ParseUint10_64 "200") = None /\ fst (ParseUint10_64 "200") = decimal "200".
Proof.
  assert (H : snd (ParseUint10_64 "200") = None) by reflexivity.
  split; [exact H |].
  exact (proj2 (ParseUint_accepts "200") H).
Defined.
